(** * mongonet: the CommandReply wire codec, the error model, the sample
      interceptor and the backend pool, embedded in Rocq.

    Go values are modelled as the code has them: fixed-width integers are [Z]
    with the wrap-around written out, byte slices are [list byte], a call that
    may panic or spin lives in the [outcome] monad, and a Go [error] result is
    an [option]. *)

From Stdlib Require Import ZArith Lia Strings.Byte Ascii String DecimalString.
From Stdlib Require DecimalZ DecimalPos.
From stdpp Require Import base tactics option list strings gmap.

#[local] Open Scope Z_scope.
#[local] Set Warnings "-clear-no-such-hyp".

(** ** The Go runtime, as far as the code below relies on it *)

Module Go.

(** What running a Go function can lead to: it returns, it panics (index or
    slice bound out of range, negative [make], nil dereference, explicit
    [panic]), or its loop never ends. *)
Inductive outcome (A : Type) : Type :=
| Return (a : A)
| Panic
| Diverge.
#[global] Arguments Return {A} a.
#[global] Arguments Panic {A}.
#[global] Arguments Diverge {A}.

Definition bind {A B} (c : outcome A) (k : A -> outcome B) : outcome B :=
  match c with
  | Return a => k a
  | Panic => Panic
  | Diverge => Diverge
  end.

Declare Scope go_scope.
Delimit Scope go_scope with go.
Notation "'let!' x ':=' c 'in' k" := (bind c (fun x => k))
  (at level 10, x pattern, c at level 100, k at level 200) : go_scope.

(** Two's-complement wrap-around of a [w]-bit signed integer. *)
Definition wrap (w : Z) (z : Z) : Z :=
  (z + 2 ^ (w - 1)) mod 2 ^ w - 2 ^ (w - 1).

(** [int32(z)] and [int(z)]; [int] is 64 bits wide. *)
Definition int32 (z : Z) : Z := wrap 32 z.
Definition int (z : Z) : Z := wrap 64 z.

Definition MaxInt32 : Z := 2147483647.
Definition MaxInt : Z := 9223372036854775807.
Definition MinInt32 : Z := -2147483648.

Definition len {A} (s : list A) : Z := Z.of_nat (length s).

(** [make([]byte, n)]: a zeroed slice, or a panic when [n] is negative;
    memory is not bounded here. *)
Definition make (n : Z) : outcome (list byte) :=
  if n <? 0 then Panic else Return (replicate (Z.to_nat n) x00).

(** [s[lo:]]: panics unless [0 <= lo <= len(s)]. *)
Definition slice_from {A} (s : list A) (lo : Z) : outcome (list A) :=
  if (lo <? 0) || (len s <? lo) then Panic
  else Return (drop (Z.to_nat lo) s).

(** [s[lo:hi]]: panics unless [0 <= lo <= hi <= len(s)]. *)
Definition slice {A} (s : list A) (lo hi : Z) : outcome (list A) :=
  if (lo <? 0) || (hi <? lo) || (len s <? hi) then Panic
  else Return (take (Z.to_nat (hi - lo)) (drop (Z.to_nat lo) s)).

(** [copy(buf[loc:], src)]: overwrites [min(len(buf)-loc, len(src))] bytes
    of [buf] from position [loc] on; the slice expression panics when [loc]
    is out of range. *)
Definition copy_at (buf : list byte) (loc : Z) (src : list byte)
  : outcome (list byte) :=
  (let! dst := slice_from buf loc in
   let n := Nat.min (length dst) (length src) in
   Return (take (Z.to_nat loc) buf ++ take n src ++ drop n dst))%go.

(** [buf[i] = b]: panics when [i] is out of range. *)
Definition store (buf : list byte) (i : Z) (b : byte) : outcome (list byte) :=
  if (i <? 0) || (len buf <=? i) then Panic
  else Return (<[Z.to_nat i := b]> buf).

End Go.

Import Go.
#[local] Open Scope go_scope.

(** ** Errors *)

(** Modelled from the spec: the error taxonomy of section 7; the error
    values themselves are built elsewhere in the package. *)
Inductive error : Type :=
| MalformedMessage
| BackendUnavailable
| ClientIOError
| InterceptorError.

#[global] Instance error_eq_dec : EqDecision error.
Proof. solve_decision. Defined.

(** ** Little-endian integers *)

Definition byte_to_Z (b : byte) : Z := Z.of_N (Byte.to_N b).

Definition byte_of_Z (z : Z) : byte :=
  match Byte.of_N (Z.to_N (z mod 256)) with
  | Some b => b
  | None => x00
  end.

(** Modelled from the spec: [readInt32], the little-endian signed 32-bit read
    the wire format of section 6 prescribes for every size field; [None] when
    fewer than four bytes are left. *)
Definition readInt32 (b : list byte) : option Z :=
  match b with
  | b0 :: b1 :: b2 :: b3 :: _ =>
      Some (int32 (byte_to_Z b0 + 256 * byte_to_Z b1
                   + 65536 * byte_to_Z b2 + 16777216 * byte_to_Z b3))
  | _ => None
  end.

(** Modelled from the spec: the four little-endian bytes of an int32. *)
Definition int32_bytes (v : Z) : list byte :=
  [byte_of_Z v; byte_of_Z (v / 256); byte_of_Z (v / 65536);
   byte_of_Z (v / 16777216)].

(** Modelled from the spec: [writeInt32(v, buf, loc)], four indexed stores. *)
Definition writeInt32 (v : Z) (buf : list byte) (loc : Z) : outcome (list byte) :=
  let! buf := store buf loc (byte_of_Z v) in
  let! buf := store buf (loc + 1) (byte_of_Z (v / 256)) in
  let! buf := store buf (loc + 2) (byte_of_Z (v / 65536)) in
  store buf (loc + 3) (byte_of_Z (v / 16777216)).

(** ** Wire data *)

(** Modelled from the spec: the 16-byte message header of section 3; the
    struct is declared elsewhere in the package. *)
Module MsgHeader.
Record MessageHeader : Type := mk {
  Size : Z;
  RequestID : Z;
  ResponseTo : Z;
  OpCode : Z
}.

Definition with_Size (h : MessageHeader) (s : Z) : MessageHeader :=
  {| Size := s; RequestID := RequestID h; ResponseTo := ResponseTo h;
     OpCode := OpCode h |}.

(** Modelled from the spec: [MessageHeader.WriteInto], the four
    little-endian int32 fields at offsets 0, 4, 8 and 12. *)
Definition WriteInto (h : MessageHeader) (buf : list byte) : outcome (list byte) :=
  let! buf := writeInt32 (Size h) buf 0 in
  let! buf := writeInt32 (RequestID h) buf 4 in
  let! buf := writeInt32 (ResponseTo h) buf 8 in
  writeInt32 (OpCode h) buf 12.
End MsgHeader.
Export (notations) MsgHeader.
Abbreviation MessageHeader := MsgHeader.MessageHeader.

(** Modelled from the spec: the raw document of section 3, a byte span with
    its recorded size (an int32); the struct is declared elsewhere in the
    package. *)
Record SimpleBSON : Type := mkSimpleBSON {
  Size : Z;
  BSON : list byte
}.

Definition emptySimpleBSON : SimpleBSON := {| Size := 0; BSON := [] |}.

(** Modelled from the spec: [parseSimpleBSON].  A document declares its size
    in its own first four bytes (section 6); the parse fails with
    MalformedMessage when the declared size exceeds the remaining buffer
    (section 4.1), as it does when not even the four bytes of the size are
    left.  Otherwise the document is the span [b[0:size]] with [size]
    recorded; the spec states no other check, so a declared size of zero or
    less is accepted as it is, with nothing in the span. *)
Definition parseSimpleBSON (b : list byte) : SimpleBSON * option error :=
  match readInt32 b with
  | None => (emptySimpleBSON, Some MalformedMessage)
  | Some size =>
      if len b <? size then (emptySimpleBSON, Some MalformedMessage)
      else ({| Size := size; BSON := take (Z.to_nat size) b |}, None)
  end.

(** Modelled from the spec: [SimpleBSON.Copy], which copies the span verbatim
    into the output buffer at the cursor and advances the cursor by the
    recorded size. *)
Definition Copy (sb : SimpleBSON) (loc : Z) (buf : list byte)
  : outcome (Z * list byte) :=
  let! buf := copy_at buf loc (BSON sb) in
  Return (int (loc + int (Size sb)), buf).

Record CommandReplyMessage : Type := mkCommandReplyMessage {
  header : MessageHeader;
  CommandReply : SimpleBSON;
  Metadata : SimpleBSON;
  OutputDocs : list SimpleBSON
}.

Definition HasResponse (m : CommandReplyMessage) : bool := false.

Definition Header (m : CommandReplyMessage) : MessageHeader := header m.

(** The first loop of [Serialize]: [size += int(d.Size)] over the documents. *)
Definition sumSizes (size : Z) (docs : list SimpleBSON) : Z :=
  fold_left (fun size d => int (size + int (Size d))) docs size.

(** The second loop of [Serialize]: [d.Copy(&loc, buf)] over the documents. *)
Fixpoint copyDocs (docs : list SimpleBSON) (loc : Z) (buf : list byte)
  : outcome (Z * list byte) :=
  match docs with
  | [] => Return (loc, buf)
  | d :: docs =>
      let! (loc, buf) := Copy d loc buf in
      copyDocs docs loc buf
  end.

(** [m.header.Size = s] *)
Definition setHeaderSize (m : CommandReplyMessage) (s : Z) : CommandReplyMessage :=
  {| header := MsgHeader.with_Size (header m) s;
     CommandReply := CommandReply m;
     Metadata := Metadata m;
     OutputDocs := OutputDocs m |}.

(** [rm.OutputDocs = append(rm.OutputDocs, doc)] *)
Definition appendOutputDoc (rm : CommandReplyMessage) (doc : SimpleBSON)
  : CommandReplyMessage :=
  {| header := header rm;
     CommandReply := CommandReply rm;
     Metadata := Metadata rm;
     OutputDocs := OutputDocs rm ++ [doc] |}.

(** [Serialize] has a pointer receiver and writes [m.header.Size]: the
    message after the call is returned next to the buffer. *)
Definition Serialize (m : CommandReplyMessage)
  : outcome (CommandReplyMessage * list byte) :=
  let size := 16 in
  let size := int (size + int (Size (CommandReply m))) in
  let size := int (size + int (Size (Metadata m))) in
  let size := sumSizes size (OutputDocs m) in
  let m := setHeaderSize m (int32 size) in
  let! buf := make size in
  let! buf := MsgHeader.WriteInto (header m) buf in
  let loc := 16 in
  let! (loc, buf) := Copy (CommandReply m) loc buf in
  let! (loc, buf) := Copy (Metadata m) loc buf in
  let! (loc, buf) := copyDocs (OutputDocs m) loc buf in
  Return (m, buf).

(** The [for len(buf) > 0] loop of [parseCommandReplyMessage].  Every round
    that goes on consumes [doc.Size] bytes, so [length buf] rounds are enough
    unless some round consumes nothing, in which case the Go loop spins on
    the same buffer for ever: running out of [fuel] is [Diverge]. *)
Fixpoint parseOutputDocs (fuel : nat) (rm : CommandReplyMessage)
    (buf : list byte) : outcome (CommandReplyMessage * option error) :=
  if 0 <? len buf then
    match fuel with
    | O => Diverge
    | S fuel =>
        let '(doc, err) := parseSimpleBSON buf in
        match err with
        | Some e => Return (rm, Some e)
        | None =>
            let! buf := slice_from buf (Size doc) in
            parseOutputDocs fuel (appendOutputDoc rm doc) buf
        end
    end
  else Return (rm, None).

Definition parseCommandReplyMessage (header : MessageHeader) (buf : list byte)
  : outcome (CommandReplyMessage * option error) :=
  let rm := {| header := header; CommandReply := emptySimpleBSON;
               Metadata := emptySimpleBSON; OutputDocs := [] |} in
  let '(doc, err) := parseSimpleBSON buf in
  let rm := {| header := header; CommandReply := doc;
               Metadata := Metadata rm; OutputDocs := OutputDocs rm |} in
  match err with
  | Some e => Return (rm, Some e)
  | None =>
      let! buf := slice_from buf (Size (CommandReply rm)) in
      let '(doc, err) := parseSimpleBSON buf in
      let rm := {| header := header; CommandReply := CommandReply rm;
                   Metadata := doc; OutputDocs := OutputDocs rm |} in
      match err with
      | Some e => Return (rm, Some e)
      | None =>
          let! buf := slice_from buf (Size (Metadata rm)) in
          parseOutputDocs (length buf) rm buf
      end
  end.

(** ** Sizes and spans of a message, as the statements below speak of them *)

(** The documents of a message in wire order. *)
Definition docsOf (m : CommandReplyMessage) : list SimpleBSON :=
  CommandReply m :: Metadata m :: OutputDocs m.

(** The exact (unwrapped) sum of the recorded sizes. *)
Definition docSizes (docs : list SimpleBSON) : Z :=
  foldr (fun d s => Size d + s) 0 docs.

(** 16 plus the recorded sizes of all embedded documents. *)
Definition messageSize (m : CommandReplyMessage) : Z :=
  16 + Size (CommandReply m) + Size (Metadata m) + docSizes (OutputDocs m).

(** The byte spans of the documents, one after the other. *)
Definition spans (docs : list SimpleBSON) : list byte :=
  concat (map BSON docs).

(** The recorded size is the length of the span. *)
Definition sized (d : SimpleBSON) : Prop := Size d = len (BSON d).

(** The recorded size is the length of the span and is the size the span
    declares in its own first four bytes. *)
Definition framed (d : SimpleBSON) : Prop :=
  sized d /\ readInt32 (BSON d) = Some (Size d).

#[global] Instance sized_dec (d : SimpleBSON) : Decision (sized d).
Proof. unfold sized. apply _. Defined.

#[global] Instance framed_dec (d : SimpleBSON) : Decision (framed d).
Proof. unfold framed. apply _. Defined.

(** The recorded size is the length of the span, and where the span has
    room for its own four size bytes it is the size they declare: what the
    parser hands back for a span too short to hold them is not framed. *)
Definition declared (d : SimpleBSON) : Prop :=
  sized d /\ (4 <= Size d -> framed d).

(** The message with [outs] appended to its output documents. *)
Definition appendOutputDocs (rm : CommandReplyMessage) (outs : list SimpleBSON)
  : CommandReplyMessage :=
  {| header := header rm;
     CommandReply := CommandReply rm;
     Metadata := Metadata rm;
     OutputDocs := OutputDocs rm ++ outs |}.

(** The message [m] under the header [h]. *)
Definition withHeader (m : CommandReplyMessage) (h : MessageHeader)
  : CommandReplyMessage :=
  {| header := h;
     CommandReply := CommandReply m;
     Metadata := Metadata m;
     OutputDocs := OutputDocs m |}.

(** [parseCommandReplyMessage(h, m.Serialize()[16:])]: the message after
    [Serialize] is returned with the parse result. *)
Definition reparse (m : CommandReplyMessage) (h : MessageHeader)
  : outcome (CommandReplyMessage * (CommandReplyMessage * option error)) :=
  let! (m', buf) := Serialize m in
  let! payload := slice_from buf 16 in
  let! r := parseCommandReplyMessage h payload in
  Return (m', r).


(** Somewhere along the parse, a document declares a size of zero or less:
    either the document at the cursor does, or the cursor moves on past
    that document and a later one does. *)
Inductive declaresNonPositive : list byte -> Prop :=
| nonPositive_here buf size :
    readInt32 buf = Some size -> size <= 0 -> declaresNonPositive buf
| nonPositive_later buf size :
    readInt32 buf = Some size -> 0 < size <= len buf ->
    declaresNonPositive (drop (Z.to_nat size) buf) ->
    declaresNonPositive buf.

(** Sample values: a header, documents and a reply. *)
Definition sampleHeader : MessageHeader :=
  {| MsgHeader.Size := 0; MsgHeader.RequestID := 7;
     MsgHeader.ResponseTo := 3; MsgHeader.OpCode := 2011 |}.
(** The empty document, and the document {ok: 1}. *)
Definition doc5 : SimpleBSON :=
  {| Size := 5; BSON := [x05; x00; x00; x00; x00] |}.
Definition docOk : SimpleBSON :=
  {| Size := 13;
     BSON := [x0d; x00; x00; x00; x10; x6f; x6b; x00;
              x01; x00; x00; x00; x00] |}.
Definition sampleReply : CommandReplyMessage :=
  {| header := sampleHeader; CommandReply := docOk; Metadata := doc5;
     OutputDocs := [docOk; doc5] |}.

(** A reply whose command-reply document is the empty span with size 0. *)
Definition emptyFirstReply : CommandReplyMessage :=
  {| header := sampleHeader; CommandReply := emptySimpleBSON;
     Metadata := doc5; OutputDocs := [] |}.

(** A reply with a negative recorded size, and one whose recorded sizes add
    up to more than an int32 holds. *)
Definition negativeSizeReply : CommandReplyMessage :=
  {| header := sampleHeader;
     CommandReply := {| Size := -17; BSON := [] |};
     Metadata := doc5; OutputDocs := [] |}.
Definition hugeReply : CommandReplyMessage :=
  {| header := sampleHeader;
     CommandReply := {| Size := 2147483647; BSON := [] |};
     Metadata := doc5; OutputDocs := [] |}.

(** ** Decoded documents *)

(** [bson.D] is an ordered sequence of [bson.E] key/value elements.  The
    values the code below builds are Go ints and strings; an embedded
    document is kept as its raw bytes. *)
Module bson.
Inductive Value : Type :=
| Int (z : Z)
| Str (s : string)
| Raw (doc : list byte).

Record E : Type := mkE { Key : string; Val : Value }.

Abbreviation D := (list E).

Definition keys (d : D) : list string := map Key d.
End bson.

(** ** The error model *)

(** The cause is a Go [error]: [None] is nil, [Some msg] an error whose
    [Error()] is [msg]. *)
Record MongoError : Type := mkMongoError {
  err : option string;
  code : Z;
  codeName : string;
  errInfo : string
}.

Definition NewMongoError (err : option string) (code : Z) (codeName : string)
  : MongoError :=
  mkMongoError err code codeName EmptyString.

Definition NewMongoErrorWithInfo (err : option string) (code : Z)
    (codeName errInfo : string) : MongoError :=
  mkMongoError err code codeName errInfo.

Definition GetErrorInfo (me : MongoError) : string := errInfo me.

Definition ToBSON (me : MongoError) : bson.D :=
  let doc := [bson.mkE "ok" (bson.Int 0)] in
  let doc :=
    match err me with
    | Some msg => doc ++ [bson.mkE "errmsg" (bson.Str msg)]
    | None => doc
    end in
  doc ++ [bson.mkE "code" (bson.Int (code me));
          bson.mkE "codeName" (bson.Str (codeName me))].

Definition GetCode (me : MongoError) : Z := code me.

Definition GetCodeName (me : MongoError) : string := codeName me.

(** [%v] of an int: its decimal digits, with a minus sign when negative. *)
Definition fmtInt (z : Z) : string := NilZero.string_of_int (Z.to_int z).

(** The arguments of [Sprintf] are evaluated first: [me.err.Error()] on a
    nil cause is a nil dereference. *)
Definition Error (me : MongoError) : outcome string :=
  match err me with
  | None => Panic
  | Some msg =>
      Return ("code=" +:+ fmtInt (code me) +:+ " codeName=" +:+ codeName me
              +:+ " errmsg = " +:+ msg)
  end.

(** Sample errors. *)
Definition sampleError : MongoError :=
  NewMongoErrorWithInfo (Some "connection closed") 6 "HostUnreachable"
    "retry later".
Definition sampleErrorNoCause : MongoError :=
  NewMongoError None (-1) "Unknown".

(** ** Messages *)

(** Modelled from the spec: the Query variant of a message (section 3): a
    header, flags, a namespace, skip and limit counts and its raw documents.
    The struct is declared elsewhere in the package; the interceptor uses
    its [Namespace] and [Query] fields. *)
Record QueryMessage : Type := mkQueryMessage {
  qheader : MessageHeader;
  Flags : Z;
  Namespace : string;
  Skip : Z;
  NReturn : Z;
  Query : SimpleBSON;
  Project : SimpleBSON
}.

(** [mm.Query = qb] *)
Definition setQuery (mm : QueryMessage) (qb : SimpleBSON) : QueryMessage :=
  {| qheader := qheader mm; Flags := Flags mm; Namespace := Namespace mm;
     Skip := Skip mm; NReturn := NReturn mm; Query := qb;
     Project := Project mm |}.

(** The [Message] interface, as a tagged union of its implementations: the
    two the sources name and, for the rest, the header with the raw body. *)
Inductive Message : Type :=
| QueryMsg (mm : QueryMessage)
| CommandReplyMsg (m : CommandReplyMessage)
| OtherMsg (h : MessageHeader) (body : list byte).

(** A response interceptor rewrites the reply on its way back. *)
Definition ResponseInterceptor : Type := Message -> Message * option error.

(** ** The document helpers the interceptor calls *)

(** What the interceptor calls and this file leaves open: the namespace
    test and the two document conversions of the package, which wrap the
    BSON driver, and [strings.ToLower]. *)
Class Helpers : Type := {
  NamespaceIsCommand : string -> bool;
  ToBSOND : SimpleBSON -> bson.D * option error;
  SimpleBSONConvert : bson.D -> SimpleBSON * option error;
  ToLower : string -> string
}.

(** What is asked of the two conversions: a document built from a sequence
    decodes again, to a sequence with the same keys in the same order (the
    driver may change the Go type of a value on the way). *)
Class HelpersLaws `{Helpers} : Prop := {
  convert_keys : forall d sb,
    SimpleBSONConvert d = (sb, None) ->
    exists d', ToBSOND sb = (d', None) /\ bson.keys d' = bson.keys d
}.

(** Modelled from the spec: [BSONIndexOf] (the indexOfKey of section 4.2), a
    linear scan for the first element whose key is exactly [key]; -1 when
    there is none. *)
Fixpoint BSONIndexOf (doc : bson.D) (key : string) : Z :=
  match doc with
  | [] => -1
  | e :: doc =>
      if String.eqb (bson.Key e) key then 0
      else let i := BSONIndexOf doc key in
           if i <? 0 then -1 else i + 1
  end.

(** ** The sample interceptor of the test suite *)

(** [append(query[:idx], query[idx+1:]...)] *)
Definition removeAt (query : bson.D) (idx : Z) : outcome bson.D :=
  let! front := slice query 0 idx in
  let! back := slice_from query (idx + 1) in
  Return (front ++ back).

Definition InterceptClientToMongo `{Helpers} (m : Message)
  : outcome (Message * option ResponseInterceptor * option error) :=
  match m with
  | QueryMsg mm =>
      if negb (NamespaceIsCommand (Namespace mm)) then Return (m, None, None)
      else
        let '(query, err) := ToBSOND (Query mm) in
        match err, query with
        | Some _, _ | None, [] =>
            (* let mongod handle error message *)
            Return (m, None, None)
        | None, e0 :: _ =>
            let cmdName := ToLower (bson.Key e0) in
            if negb (String.eqb cmdName "ismaster") then Return (m, None, None)
            else
              (* remove client *)
              let idx := BSONIndexOf query "client" in
              let! query :=
                if 0 <=? idx then removeAt query idx else Return query in
              let '(qb, err) := SimpleBSONConvert query in
              match err with
              | Some _ => Panic
              | None => Return (QueryMsg (setQuery mm qb), None, None)
              end
        end
  | _ => Return (m, None, None)
  end.

(** ** What the statements about the interceptor speak of *)

(** The document without its first element keyed [key]. *)
Fixpoint dropFirstKey (key : string) (d : bson.D) : bson.D :=
  match d with
  | [] => []
  | e :: d =>
      if String.eqb (bson.Key e) key then d else e :: dropFirstKey key d
  end.

(** The elements keyed otherwise than [key], in order. *)
Definition otherFields (key : string) (d : bson.D) : bson.D :=
  filter (fun e => bson.Key e <> key) d.

(** How many elements are keyed [key]. *)
Definition countKey (key : string) (d : bson.D) : nat :=
  length (filter (fun e => bson.Key e = key) d).

(** The message is a query on a command namespace whose document decodes to
    a non-empty sequence with a first key that lower-cases to "ismaster". *)
Definition isHandshake `{Helpers} (m : Message) : bool :=
  match m with
  | QueryMsg mm =>
      NamespaceIsCommand (Namespace mm)
      && match ToBSOND (Query mm) with
         | (e0 :: _, None) => String.eqb (ToLower (bson.Key e0)) "ismaster"
         | _ => false
         end
  | _ => false
  end.

(** ** A small instance of the helpers, to run the interceptor on bytes

    The document conversions below read and write the BSON framing for the
    element types the samples use (int32, string, embedded document) and
    report every other element as an error; [asciiToLower] lower-cases the
    ASCII letters and [hasSuffix] is the ".$cmd" test on namespaces. *)

Module Sample.

Definition cstring (s : string) : list byte := list_byte_of_string s ++ [x00].

Definition encodeElem (e : bson.E) : list byte :=
  match bson.Val e with
  | bson.Int z => x10 :: cstring (bson.Key e) ++ int32_bytes z
  | bson.Str s =>
      x02 :: cstring (bson.Key e)
        ++ int32_bytes (len (cstring s)) ++ cstring s
  | bson.Raw doc => x03 :: cstring (bson.Key e) ++ doc
  end.

Definition encodeDoc (d : bson.D) : SimpleBSON :=
  let body := concat (map encodeElem d) ++ [x00] in
  let size := 4 + len body in
  {| Size := size; BSON := int32_bytes size ++ body |}.

Fixpoint splitCString (b : list byte) : option (list byte * list byte) :=
  match b with
  | [] => None
  | c :: b =>
      if Byte.eqb c x00 then Some ([], b)
      else match splitCString b with
           | Some (k, rest) => Some (c :: k, rest)
           | None => None
           end
  end.

Definition decodeValue (tag : byte) (b : list byte)
  : option (bson.Value * list byte) :=
  match readInt32 b with
  | None => None
  | Some n =>
      if Byte.eqb tag x10 then Some (bson.Int n, drop 4 b)
      else if Byte.eqb tag x02 then
        let b := drop 4 b in
        if (n <? 1) || (len b <? n) then None
        else Some (bson.Str (string_of_list_byte (take (Z.to_nat (n - 1)) b)),
                   drop (Z.to_nat n) b)
      else if Byte.eqb tag x03 then
        if (n <? 5) || (len b <? n) then None
        else Some (bson.Raw (take (Z.to_nat n) b), drop (Z.to_nat n) b)
      else None
  end.

Fixpoint decodeElems (fuel : nat) (b : list byte) : option bson.D :=
  match fuel, b with
  | O, _ | _, [] => None
  | S fuel, tag :: b =>
      if Byte.eqb tag x00 then
        match b with [] => Some [] | _ => None end
      else
        match splitCString b with
        | None => None
        | Some (k, b) =>
            match decodeValue tag b with
            | None => None
            | Some (v, b) =>
                match decodeElems fuel b with
                | None => None
                | Some d => Some (bson.mkE (string_of_list_byte k) v :: d)
                end
            end
        end
  end.

Definition decodeDoc (sb : SimpleBSON) : bson.D * option error :=
  match readInt32 (BSON sb) with
  | None => ([], Some MalformedMessage)
  | Some n =>
      if negb (n =? len (BSON sb)) then ([], Some MalformedMessage)
      else match decodeElems (length (BSON sb)) (drop 4 (BSON sb)) with
           | Some d => (d, None)
           | None => ([], Some MalformedMessage)
           end
  end.

Definition lowerAscii (c : ascii) : ascii :=
  let n := nat_of_ascii c in
  if (65 <=? n)%nat && (n <=? 90)%nat then ascii_of_nat (n + 32) else c.

Fixpoint asciiToLower (s : string) : string :=
  match s with
  | EmptyString => EmptyString
  | String c s => String (lowerAscii c) (asciiToLower s)
  end.

Definition hasSuffix (s suffix : string) : bool :=
  let n := String.length s in
  let k := String.length suffix in
  (k <=? n)%nat && String.eqb (substring (n - k) k s) suffix.

(** What [encodeDoc] can write so that [decodeDoc] reads it back: keys
    without a NUL byte, ints in the int32 range, embedded documents that are
    framed, and a total size an int32 holds. *)
Definition noNul (b : list byte) : bool :=
  forallb (fun c => negb (Byte.eqb c x00)) b.

Definition encodableValue (v : bson.Value) : bool :=
  match v with
  | bson.Int z => (MinInt32 <=? z) && (z <=? MaxInt32)
  | bson.Str s => len (cstring s) <=? MaxInt32
  | bson.Raw doc =>
      match readInt32 doc with
      | Some n => (n =? len doc) && (5 <=? n)
      | None => false
      end
  end.

Definition encodableElem (e : bson.E) : bool :=
  noNul (list_byte_of_string (bson.Key e)) && encodableValue (bson.Val e).

Definition encodable (d : bson.D) : bool :=
  forallb encodableElem d && (Size (encodeDoc d) <=? MaxInt32).

Definition convert (d : bson.D) : SimpleBSON * option error :=
  if encodable d then (encodeDoc d, None)
  else (emptySimpleBSON, Some MalformedMessage).

#[export] Instance helpers : Helpers := {|
  NamespaceIsCommand ns := hasSuffix ns ".$cmd";
  ToBSOND := decodeDoc;
  SimpleBSONConvert := convert;
  ToLower := asciiToLower
|}.

Definition queryOf (ns : string) (d : bson.D) : QueryMessage :=
  {| qheader := sampleHeader; Flags := 0; Namespace := ns; Skip := 0;
     NReturn := -1; Query := encodeDoc d; Project := emptySimpleBSON |}.

(** A handshake with one client field, one with two, and a find. *)
Definition handshakeDoc : bson.D :=
  [bson.mkE "isMaster" (bson.Int 1);
   bson.mkE "client" (bson.Str "mongo-go-driver");
   bson.mkE "compression" (bson.Int 0)].
Definition handshake : QueryMessage := queryOf "admin.$cmd" handshakeDoc.

Definition twoClientsDoc : bson.D :=
  [bson.mkE "isMaster" (bson.Int 1);
   bson.mkE "client" (bson.Str "first");
   bson.mkE "client" (bson.Str "second")].
Definition twoClients : QueryMessage := queryOf "admin.$cmd" twoClientsDoc.

Definition findQuery : QueryMessage :=
  queryOf "test.$cmd" [bson.mkE "find" (bson.Str "bar_0")].

End Sample.

(** ** The backend connection pool *)

(** Modelled from the spec: the pool of section 4.5 and the proxy's
    connections-created counter; the pool, the proxy and the accessor
    TestProxySanity calls are defined elsewhere in the package.  A connection is
    named by a number; the pool holds the set of idle connections and the
    count of sockets opened so far, which also names the next socket. *)
Record Pool : Type := mkPool {
  idle : gset nat;
  connectionsCreated : nat
}.

Definition newPool : Pool := {| idle := ∅; connectionsCreated := 0 |}.

(** Modelled from the spec: the read-only accessor. *)
Definition GetConnectionsCreated (p : Pool) : nat := connectionsCreated p.

(** What an acquisition hands back. *)
Inductive acquired : Type :=
| Reused (c : nat)
| Opened (c : nat)
| Unavailable.

Definition connOf (a : acquired) : option nat :=
  match a with
  | Reused c | Opened c => Some c
  | Unavailable => None
  end.

Definition isOpened (a : acquired) : bool :=
  match a with Opened _ => true | _ => false end.

(** Modelled from the spec: opening a new socket; [dial] tells whether the
    backend accepts it.  A failure is BackendUnavailable and counts
    nothing. *)
Definition openSocket (dial : bool) (p : Pool) : Pool * acquired :=
  if dial then
    ({| idle := idle p; connectionsCreated := S (connectionsCreated p) |},
     Opened (connectionsCreated p))
  else (p, Unavailable).

(** Modelled from the spec: [acquire] returns an idle connection if one
    exists and passes the liveness check ([live]), and otherwise opens a new
    socket; an idle connection that fails the check is discarded. *)
Definition acquire (live dial : bool) (p : Pool) : Pool * acquired :=
  match elements (idle p) with
  | c :: _ =>
      let p := {| idle := idle p ∖ {[c]};
                  connectionsCreated := connectionsCreated p |} in
      if live then (p, Reused c) else openSocket dial p
  | [] => openSocket dial p
  end.

(** Modelled from the spec: [release] puts a healthy connection back into
    the idle set and closes and discards an unhealthy one. *)
Definition release (c : nat) (healthy : bool) (p : Pool) : Pool :=
  if healthy then
    {| idle := {[c]} ∪ idle p; connectionsCreated := connectionsCreated p |}
  else
    {| idle := idle p ∖ {[c]}; connectionsCreated := connectionsCreated p |}.

(** Pool operations with what the environment answers, and their runs. *)
Inductive poolOp : Type :=
| Acquire (live dial : bool)
| Release (c : nat) (healthy : bool).

Definition poolStep (p : Pool) (op : poolOp) : Pool * option acquired :=
  match op with
  | Acquire live dial => let '(p, a) := acquire live dial p in (p, Some a)
  | Release c healthy => (release c healthy p, None)
  end.

(** The pool after the operations, with what each acquisition handed back. *)
Fixpoint poolRun (p : Pool) (ops : list poolOp) : Pool * list acquired :=
  match ops with
  | [] => (p, [])
  | op :: ops =>
      let '(p, a) := poolStep p op in
      let '(p', log) := poolRun p ops in
      (p', match a with Some a => a :: log | None => log end)
  end.

(** How many sockets a log of acquisitions opened. *)
Definition socketsOpened (log : list acquired) : nat :=
  length (filter (fun a => isOpened a = true) log).

(** The four passes of TestProxySanity, five sessions each, as the pool sees
    them: a cold pool, the warm pool reused, every pooled connection failing
    and its fresh replacement failing too, and the recovery. *)
Definition acquireAll : list poolOp := replicate 5 (Acquire true true).
Definition releaseAll (first : nat) (healthy : bool) : list poolOp :=
  map (fun c => Release c healthy) (seq first 5).
Definition passCold : list poolOp := acquireAll ++ releaseAll 0 true.
Definition passWarm : list poolOp := acquireAll ++ releaseAll 0 true.
Definition passFailing : list poolOp :=
  acquireAll ++ releaseAll 0 false ++ acquireAll ++ releaseAll 5 false.
Definition passRecovered : list poolOp := acquireAll ++ releaseAll 10 true.

(** ** One request cycle of a proxy session *)

(** What a session does that the outside can observe. *)
Inductive sessionEvent : Type :=
| EvAcquire (a : acquired)
| EvForward (c : nat)
| EvRelease (c : nat) (healthy : bool)
| EvReply                        (* the backend's reply reached the client *)
| EvErrorReply (cause : error)   (* a MongoError reply reached the client *)
| EvClientGone.                  (* the client connection failed *)

Inductive sessionState : Type := SessionOpen | SessionClosed.

(** What the environment answers during one cycle: the liveness check and
    the dial of each of the two acquisitions, whether the forward and its
    reply go through on the first and on the second backend connection, and
    whether the client connection takes the response. *)
Record cycleEnv : Type := mkCycleEnv {
  live1 : bool; dial1 : bool; forward1 : bool;
  live2 : bool; dial2 : bool; forward2 : bool;
  clientOk : bool
}.

(** Modelled from the spec: writing the response [ev] to the client; a
    failing client connection is always fatal to the session (section 7). *)
Definition respond (env : cycleEnv) (ev : sessionEvent)
  : list sessionEvent * sessionState :=
  if clientOk env then ([ev], SessionOpen) else ([EvClientGone], SessionClosed).

(** Modelled from the spec: steps 3, 4 and 6 of the per-message cycle of
    section 4.6 with its failure policy; the session is defined elsewhere in the
    package.  The backend connection is acquired and the message forwarded;
    when that connection fails it is released as unhealthy, a fresh one is
    acquired and the forward is retried once; a second failure, like an
    acquisition that fails, is answered with an error reply. *)
Definition requestCycle (env : cycleEnv) (p : Pool)
  : Pool * list sessionEvent * sessionState :=
  let '(p, a1) := acquire (live1 env) (dial1 env) p in
  match connOf a1 with
  | None =>
      let '(evs, st) := respond env (EvErrorReply BackendUnavailable) in
      (p, EvAcquire a1 :: evs, st)
  | Some c1 =>
      if forward1 env then
        let '(evs, st) := respond env EvReply in
        (release c1 true p,
         [EvAcquire a1; EvForward c1] ++ evs ++ [EvRelease c1 true], st)
      else
        let p := release c1 false p in
        let '(p, a2) := acquire (live2 env) (dial2 env) p in
        let pre := [EvAcquire a1; EvForward c1; EvRelease c1 false;
                    EvAcquire a2] in
        match connOf a2 with
        | None =>
            let '(evs, st) := respond env (EvErrorReply BackendUnavailable) in
            (p, pre ++ evs, st)
        | Some c2 =>
            if forward2 env then
              let '(evs, st) := respond env EvReply in
              (release c2 true p,
               pre ++ [EvForward c2] ++ evs ++ [EvRelease c2 true], st)
            else
              let '(evs, st) := respond env (EvErrorReply BackendUnavailable) in
              (release c2 false p,
               pre ++ [EvForward c2; EvRelease c2 false] ++ evs, st)
        end
  end.


(** A backend that closes the connection on every forward, as the fail
    point of the test suite does, with a client that stays connected. *)
Definition failingBackend : cycleEnv :=
  {| live1 := true; dial1 := true; forward1 := false;
     live2 := true; dial2 := true; forward2 := false; clientOk := true |}.

(** Every idle connection was opened by this pool: its number is below the
    count of sockets opened. *)
Definition poolWf (p : Pool) : Prop :=
  forall c, c ∈ idle p -> (c < connectionsCreated p)%nat.

(** The sixteen bytes [WriteInto] leaves at the front of a buffer. *)
Definition headerBytes (h : MessageHeader) : list byte :=
  int32_bytes (MsgHeader.Size h) ++ int32_bytes (MsgHeader.RequestID h)
  ++ int32_bytes (MsgHeader.ResponseTo h) ++ int32_bytes (MsgHeader.OpCode h).

(** ** Further notions the statements below speak of *)

(** The first value stored under [key], as a reader of the document finds
    it. *)
Fixpoint lookupKey (key : string) (d : bson.D) : option bson.Value :=
  match d with
  | [] => None
  | e :: d => if String.eqb (bson.Key e) key then Some (bson.Val e)
              else lookupKey key d
  end.

(** A reply whose documents record more than their spans hold: both claim
    seven bytes for the five-byte empty document. *)
Definition paddedReply : CommandReplyMessage :=
  {| header := sampleHeader;
     CommandReply := {| Size := 7; BSON := [x05; x00; x00; x00; x00] |};
     Metadata := {| Size := 7; BSON := [x05; x00; x00; x00; x00] |};
     OutputDocs := [] |}.

(** No space in the string. *)
Fixpoint noSpace (s : string) : bool :=
  match s with
  | EmptyString => true
  | String c s => negb (Ascii.eqb c " ") && noSpace s
  end.

(** The keys [ToBSON] can write. *)
Definition errorKeys : list string := ["ok"; "errmsg"; "code"; "codeName"].

(** ** Facts about the runtime model *)

Section GoFacts.

Lemma wrap_small (w z : Z) :
  0 < w -> - 2 ^ (w - 1) <= z < 2 ^ (w - 1) -> wrap w z = z.
Proof.
  intros Hw Hz. unfold wrap.
  assert (Hp : 2 ^ w = 2 * 2 ^ (w - 1)).
  { replace w with (Z.succ (w - 1)) at 1 by lia. apply Z.pow_succ_r. lia. }
  rewrite Hp. generalize dependent (2 ^ (w - 1)). intros p Hz _.
  rewrite Z.mod_small; lia.
Qed.

Lemma int_small (z : Z) : - MaxInt - 1 <= z <= MaxInt -> int z = z.
Proof.
  unfold MaxInt. intros. unfold int. apply wrap_small; [lia |].
  change (64 - 1) with 63. change (2 ^ 63) with 9223372036854775808. lia.
Qed.

Lemma int32_small (z : Z) : MinInt32 <= z <= MaxInt32 -> int32 z = z.
Proof.
  unfold MinInt32, MaxInt32. intros. unfold int32.
  apply wrap_small; [lia |]. change (32 - 1) with 31.
  change (2 ^ 31) with 2147483648. lia.
Qed.

Lemma int32_range (z : Z) : MinInt32 <= int32 z <= MaxInt32.
Proof.
  unfold int32, wrap, MinInt32, MaxInt32. change (32 - 1) with 31.
  change (2 ^ 31) with 2147483648. change (2 ^ 32) with 4294967296.
  pose proof (Z.mod_pos_bound (z + 2147483648) 4294967296). lia.
Qed.

Lemma len_app {A} (l k : list A) : len (l ++ k) = len l + len k.
Proof. unfold len. rewrite length_app. lia. Qed.

Lemma len_nonneg {A} (l : list A) : 0 <= len l.
Proof. unfold len. lia. Qed.

Lemma make_ok (n : Z) :
  0 <= n -> make n = Return (replicate (Z.to_nat n) x00).
Proof. intros. unfold make. destruct (Z.ltb_spec n 0); [lia | done]. Qed.

Lemma slice_from_ok {A} (s : list A) (lo : Z) :
  0 <= lo <= len s -> slice_from s lo = Return (drop (Z.to_nat lo) s).
Proof.
  intros. unfold slice_from.
  destruct (Z.ltb_spec lo 0), (Z.ltb_spec (len s) lo); simpl; try lia; done.
Qed.

(** A copy that fits writes the whole source and leaves the rest alone. *)
Lemma copy_at_fits (buf src : list byte) (loc : Z) :
  0 <= loc -> loc + len src <= len buf ->
  copy_at buf loc src =
    Return (take (Z.to_nat loc) buf ++ src ++ drop (Z.to_nat (loc + len src)) buf).
Proof.
  intros H0 Hfit. unfold copy_at.
  rewrite slice_from_ok by (unfold len in *; lia). simpl.
  unfold len in *. rewrite length_drop. rewrite Nat.min_r by lia.
  rewrite (take_ge src) by lia. rewrite drop_drop.
  by replace (Z.to_nat loc + length src)%nat
    with (Z.to_nat (loc + Z.of_nat (length src))) by lia.
Qed.

(** Any copy at a cursor inside the buffer succeeds, keeps the length and
    leaves what lies before the cursor alone. *)
Lemma copy_at_length (buf src : list byte) (loc : Z) :
  0 <= loc <= len buf ->
  exists buf', copy_at buf loc src = Return buf' /\ length buf' = length buf
               /\ take (Z.to_nat loc) buf' = take (Z.to_nat loc) buf.
Proof.
  intros H. unfold copy_at. rewrite slice_from_ok by done. simpl.
  eexists; split; [done |]. unfold len in H. split.
  - rewrite !length_app, !length_take, !length_drop. lia.
  - rewrite take_app_length'; [done |]. rewrite length_take. lia.
Qed.

Lemma byte_to_of_Z (z : Z) : byte_to_Z (byte_of_Z z) = z mod 256.
Proof.
  unfold byte_to_Z, byte_of_Z.
  pose proof (Z.mod_pos_bound z 256 ltac:(lia)) as Hb.
  destruct (Byte.of_N (Z.to_N (z mod 256))) as [b |] eqn:Hof.
  - apply Byte.to_of_N in Hof. rewrite Hof. lia.
  - apply Byte.of_N_None_iff in Hof. lia.
Qed.

(** Reading back the four bytes of an int32 gives the int32. *)
Lemma readInt32_int32_bytes (v : Z) (rest : list byte) :
  MinInt32 <= v <= MaxInt32 -> readInt32 (int32_bytes v ++ rest) = Some v.
Proof.
  unfold MinInt32, MaxInt32. intros Hv. unfold int32_bytes, readInt32.
  cbn [app]. rewrite !byte_to_of_Z. f_equal.
  unfold int32, wrap. change (32 - 1) with 31.
  change (2 ^ 31) with 2147483648. change (2 ^ 32) with 4294967296.
  replace (v / 65536) with (v / 256 / 256)
    by (rewrite Z.div_div by lia; done).
  replace (v / 16777216) with (v / 256 / 256 / 256)
    by (rewrite !Z.div_div by lia; done).
  pose proof (Z.div_mod v 256 ltac:(lia)) as H0.
  pose proof (Z.div_mod (v / 256) 256 ltac:(lia)) as H1.
  pose proof (Z.div_mod (v / 256 / 256) 256 ltac:(lia)) as H2.
  pose proof (Z.div_mod (v / 256 / 256 / 256) 256 ltac:(lia)) as H3.
  pose proof (Z.mod_pos_bound v 256 ltac:(lia)).
  pose proof (Z.mod_pos_bound (v / 256) 256 ltac:(lia)).
  pose proof (Z.mod_pos_bound (v / 256 / 256) 256 ltac:(lia)).
  pose proof (Z.mod_pos_bound (v / 256 / 256 / 256) 256 ltac:(lia)).
  set (r0 := v mod 256) in *. set (q0 := v / 256) in *.
  set (r1 := q0 mod 256) in *. set (q1 := q0 / 256) in *.
  set (r2 := q1 mod 256) in *. set (q2 := q1 / 256) in *.
  set (r3 := q2 mod 256) in *. set (q3 := q2 / 256) in *.
  clearbody r0 q0 r1 q1 r2 q2 r3 q3.
  assert (Hq : q3 = -1 \/ q3 = 0) by lia.
  destruct Hq as [-> | ->].
  - replace (r0 + 256 * r1 + 65536 * r2 + 16777216 * r3 + 2147483648)
      with ((v + 2147483648) + 1 * 4294967296) by lia.
    rewrite Z.mod_add by lia. rewrite Z.mod_small by lia. lia.
  - replace (r0 + 256 * r1 + 65536 * r2 + 16777216 * r3 + 2147483648)
      with (v + 2147483648) by lia.
    rewrite Z.mod_small by lia. lia.
Qed.

Lemma store_app (pre post : list byte) (x b : byte) :
  store (pre ++ x :: post) (len pre) b = Return (pre ++ b :: post).
Proof.
  unfold store, len. rewrite length_app. cbn [length].
  destruct (Z.ltb_spec (Z.of_nat (length pre)) 0); [lia |].
  destruct (Z.leb_spec (Z.of_nat (length pre + S (length post)))
              (Z.of_nat (length pre))); [lia |].
  cbn [orb]. rewrite Nat2Z.id.
  replace (length pre) with (length pre + 0)%nat at 1 by lia.
  by rewrite insert_app_r.
Qed.

End GoFacts.

Section SerializeFacts.

Lemma docSizes_nonneg docs :
  Forall (fun d => 0 <= Size d) docs -> 0 <= docSizes docs.
Proof. induction 1; simpl; lia. Qed.

Lemma docSizes_spans docs :
  Forall sized docs -> docSizes docs = len (spans docs).
Proof.
  unfold spans. induction 1 as [| d docs Hd _ IH]; simpl; [done |].
  rewrite len_app, IH, Hd. done.
Qed.

Lemma sized_nonneg docs :
  Forall sized docs -> Forall (fun d => 0 <= Size d) docs.
Proof.
  intros H. eapply Forall_impl; [exact H |].
  intros d ->. apply len_nonneg.
Qed.

Lemma sumSizes_exact docs : forall size,
  Forall (fun d => 0 <= Size d) docs ->
  0 <= size -> size + docSizes docs <= MaxInt ->
  sumSizes size docs = size + docSizes docs.
Proof.
  unfold sumSizes, MaxInt.
  induction docs as [| d docs IH]; intros size Hpos H0 Hmax; simpl in *.
  - lia.
  - inversion Hpos as [| ? ? Hd Hds]; subst.
    pose proof (docSizes_nonneg _ Hds).
    rewrite (int_small (Size d)) by (unfold MaxInt; lia).
    rewrite (int_small (size + Size d)) by (unfold MaxInt; lia).
    rewrite IH by (done || lia). lia.
Qed.

Lemma writeInt32_app (pre post : list byte) (a b c d : byte) (v : Z) :
  writeInt32 v (pre ++ a :: b :: c :: d :: post) (len pre)
    = Return (pre ++ int32_bytes v ++ post).
Proof.
  unfold writeInt32, int32_bytes.
  rewrite store_app. cbn [bind].
  rewrite (cons_middle _ pre), (assoc_L (++)).
  replace (len pre + 1) with (len (pre ++ [byte_of_Z v]))
    by (rewrite len_app; done).
  rewrite store_app. cbn [bind].
  rewrite (cons_middle _ (pre ++ _)), (assoc_L (++)).
  replace (len pre + 2) with (len ((pre ++ [byte_of_Z v]) ++ [byte_of_Z (v / 256)]))
    by (rewrite !len_app; unfold len; simpl; lia).
  rewrite store_app. cbn [bind].
  rewrite (cons_middle _ ((pre ++ _) ++ _)), (assoc_L (++)).
  replace (len pre + 3)
    with (len (((pre ++ [byte_of_Z v]) ++ [byte_of_Z (v / 256)])
                ++ [byte_of_Z (v / 65536)]))
    by (rewrite !len_app; unfold len; simpl; lia).
  rewrite store_app. by rewrite <- !(assoc_L (++)).
Qed.

Lemma writeInt32_front (post : list byte) (a b c d : byte) (v : Z) :
  writeInt32 v (a :: b :: c :: d :: post) 0 = Return (int32_bytes v ++ post).
Proof. exact (writeInt32_app [] post a b c d v). Qed.

(** On a buffer of at least 16 bytes [WriteInto] overwrites the first 16
    with the four fields and leaves the rest alone. *)
Lemma WriteInto_exact h buf :
  16 <= len buf ->
  MsgHeader.WriteInto h buf = Return (headerBytes h ++ drop 16 buf).
Proof.
  intros H16. unfold len in H16.
  do 16 (destruct buf as [| ? buf]; [simpl in H16; lia |]).
  unfold MsgHeader.WriteInto, headerBytes. cbn [drop].
  rewrite writeInt32_front. cbn [bind].
  set (f0 := int32_bytes (MsgHeader.Size h)).
  change 4 with (len f0).
  rewrite (writeInt32_app f0). cbn [bind].
  set (f1 := int32_bytes (MsgHeader.RequestID h)).
  rewrite (assoc_L (++) f0 f1). change 8 with (len (f0 ++ f1)).
  rewrite (writeInt32_app (f0 ++ f1)). cbn [bind].
  set (f2 := int32_bytes (MsgHeader.ResponseTo h)).
  rewrite (assoc_L (++) (f0 ++ f1) f2). change 12 with (len ((f0 ++ f1) ++ f2)).
  rewrite (writeInt32_app ((f0 ++ f1) ++ f2)).
  by rewrite <- !(assoc_L (++)).
Qed.

Lemma headerBytes_length h : length (headerBytes h) = 16%nat.
Proof. done. Qed.

(** The copy loop never leaves the buffer when the recorded sizes are
    non-negative and add up to at most what is left of it; it keeps the
    length of the buffer and what lies before the first cursor. *)
Lemma copyDocs_length docs : forall loc buf,
  Forall (fun d => 0 <= Size d) docs ->
  0 <= loc -> loc + docSizes docs <= len buf -> len buf <= MaxInt ->
  exists buf', copyDocs docs loc buf = Return (loc + docSizes docs, buf')
               /\ length buf' = length buf
               /\ take (Z.to_nat loc) buf' = take (Z.to_nat loc) buf.
Proof.
  unfold MaxInt.
  induction docs as [| d docs IH]; intros loc buf Hpos H0 Hfit Hmax; simpl in *.
  - exists buf. split; [f_equal; f_equal; lia | done].
  - inversion Hpos as [| ? ? Hd Hds]; subst.
    pose proof (docSizes_nonneg _ Hds).
    unfold Copy.
    destruct (copy_at_length buf (BSON d) loc) as (b1 & -> & L1 & P1); [lia |].
    simpl. rewrite (int_small (Size d)) by (unfold MaxInt; lia).
    rewrite (int_small (loc + Size d)) by (unfold MaxInt; lia).
    destruct (IH (loc + Size d) b1) as (b2 & -> & L2 & P2);
      [done | lia | unfold len in *; lia | unfold len in *; lia |].
    exists b2. split; [f_equal; f_equal; lia |]. split; [lia |].
    rewrite <- P1.
    replace (Z.to_nat loc) with (Z.to_nat loc `min` Z.to_nat (loc + Size d))%nat
      by lia.
    by rewrite <- !take_take, P2.
Qed.

Lemma copy_at_app (pre rest src : list byte) :
  len src <= len rest ->
  copy_at (pre ++ rest) (len pre) src =
    Return (pre ++ src ++ drop (length src) rest).
Proof.
  intros Hfit. pose proof (len_nonneg pre).
  rewrite copy_at_fits by (rewrite ?len_app; lia).
  unfold len. rewrite Nat2Z.id, take_app_length.
  replace (Z.to_nat (Z.of_nat (length pre) + Z.of_nat (length src)))
    with (length pre + length src)%nat by lia.
  by rewrite drop_app_add.
Qed.

(** When every recorded size is the length of its span, the copy loop
    lays the spans out one after the other from the cursor on. *)
Lemma copyDocs_spans docs : forall pre rest,
  Forall sized docs ->
  len (spans docs) <= len rest -> len (pre ++ rest) <= MaxInt ->
  copyDocs docs (len pre) (pre ++ rest) =
    Return (len (pre ++ spans docs),
            pre ++ spans docs ++ drop (length (spans docs)) rest).
Proof.
  unfold MaxInt, spans.
  induction docs as [| d docs IH]; intros pre rest Hsz Hfit Hmax; simpl in *.
  - by rewrite app_nil_r.
  - inversion Hsz as [| ? ? Hd Hds]; subst. red in Hd.
    rewrite !len_app in *.
    pose proof (len_nonneg (BSON d)). pose proof (len_nonneg pre).
    pose proof (len_nonneg (concat (map BSON docs))).
    unfold Copy. rewrite copy_at_app by lia. simpl.
    rewrite (int_small (Size d)) by (unfold MaxInt; lia).
    rewrite (int_small (len pre + Size d)) by (unfold MaxInt; lia).
    rewrite Hd, <- len_app, (assoc_L (++) pre).
    rewrite IH; [| done | | ].
    + rewrite !len_app. f_equal. f_equal; [lia |].
      rewrite drop_drop, length_app, <- !(assoc_L (++)). done.
    + unfold len in *. rewrite length_drop. lia.
    + rewrite !len_app. unfold len in *. rewrite length_drop. lia.
Qed.

(** [Serialize] copies the documents in wire order: the two single copies
    and the loop are one pass over [docsOf m]. *)
Lemma Serialize_unfold m :
  Serialize m =
    let size := sumSizes 16 (docsOf m) in
    let m' := setHeaderSize m (int32 size) in
    let! buf := make size in
    let! buf := MsgHeader.WriteInto (header m') buf in
    let! (_, buf) := copyDocs (docsOf m) 16 buf in
    Return (m', buf).
Proof.
  unfold Serialize, docsOf. simpl.
  destruct (make _) as [buf | |]; simpl; [| done | done].
  destruct (MsgHeader.WriteInto _ buf) as [buf1 | |]; simpl; [| done | done].
  destruct (Copy (CommandReply m) 16 buf1) as [[loc2 buf2] | |];
    simpl; [| done | done].
  destruct (Copy (Metadata m) loc2 buf2) as [[loc3 buf3] | |];
    simpl; done.
Qed.

Lemma sumSizes_docsOf m :
  Forall (fun d => 0 <= Size d) (docsOf m) -> messageSize m <= MaxInt ->
  sumSizes 16 (docsOf m) = messageSize m.
Proof.
  intros Hpos Hmax. unfold messageSize in *.
  rewrite sumSizes_exact; [simpl; lia | done | lia | simpl; lia].
Qed.

Lemma messageSize_ge16 m :
  Forall (fun d => 0 <= Size d) (docsOf m) -> 16 <= messageSize m.
Proof.
  intros Hpos. pose proof (docSizes_nonneg _ Hpos) as H.
  unfold messageSize. simpl in H. lia.
Qed.

(** With non-negative recorded sizes that fit the int32 header field,
    [Serialize] returns, stores the exact total, allocates exactly that many
    bytes and starts the buffer with the header. *)
Lemma Serialize_sized m :
  Forall (fun d => 0 <= Size d) (docsOf m) -> messageSize m <= MaxInt32 ->
  exists buf,
    Serialize m = Return (setHeaderSize m (messageSize m), buf)
    /\ len buf = messageSize m
    /\ take 16 buf = headerBytes (header (setHeaderSize m (messageSize m))).
Proof.
  intros Hpos Hmax. pose proof (messageSize_ge16 _ Hpos) as H16.
  assert (Hmax' : messageSize m <= MaxInt)
    by (unfold MaxInt, MaxInt32 in *; lia).
  rewrite Serialize_unfold. cbv zeta.
  rewrite sumSizes_docsOf by done.
  rewrite int32_small by (unfold MinInt32; lia).
  rewrite make_ok by lia. cbn [bind].
  set (buf0 := replicate _ _).
  assert (L0 : len buf0 = messageSize m).
  { unfold len, buf0. rewrite length_replicate. lia. }
  rewrite WriteInto_exact by lia. cbn [bind].
  set (hdr := headerBytes _).
  assert (L1 : len (hdr ++ drop 16 buf0) = messageSize m).
  { rewrite len_app. unfold len in *. rewrite length_drop.
    unfold hdr. rewrite headerBytes_length. lia. }
  destruct (copyDocs_length (docsOf m) 16 (hdr ++ drop 16 buf0))
    as (buf2 & -> & L2 & P2); [done | lia | | lia |].
  - rewrite L1. unfold messageSize, docsOf, docSizes. cbn [foldr]. lia.
  - cbn [bind]. exists buf2. split; [done |]. split.
    + unfold len in *. lia.
    + change (Z.to_nat 16) with (length hdr) in P2.
      by rewrite take_app_length in P2.
Qed.

(** With recorded sizes that are the lengths of their spans, the buffer is
    the 16 header bytes followed by the spans in wire order. *)
Lemma Serialize_spans m :
  Forall sized (docsOf m) -> messageSize m <= MaxInt ->
  let m' := setHeaderSize m (int32 (messageSize m)) in
  Serialize m = Return (m', headerBytes (header m') ++ spans (docsOf m)).
Proof.
  intros Hsz Hmax m'. pose proof (sized_nonneg _ Hsz) as Hpos.
  pose proof (messageSize_ge16 _ Hpos) as H16.
  assert (Hsp : len (spans (docsOf m)) = messageSize m - 16).
  { rewrite <- docSizes_spans by done. unfold messageSize. simpl. lia. }
  rewrite Serialize_unfold. cbv zeta.
  rewrite sumSizes_docsOf by done. fold m'.
  rewrite make_ok by lia. cbn [bind].
  set (buf0 := replicate _ _).
  assert (L0 : len buf0 = messageSize m).
  { unfold len, buf0. rewrite length_replicate. lia. }
  rewrite WriteInto_exact by lia. cbn [bind].
  set (hdr := headerBytes _). set (rest := drop 16 buf0).
  assert (Lr : len rest = messageSize m - 16).
  { unfold rest, len in *. rewrite length_drop. lia. }
  change 16 with (len hdr).
  rewrite copyDocs_spans;
    [| done | lia | rewrite len_app; change (len hdr) with 16; lia].
  cbn [bind]. rewrite drop_ge by (unfold len in *; lia).
  by rewrite app_nil_r.
Qed.

End SerializeFacts.

(** ** Facts about the document parser *)

Section ParseFacts.

Lemma readInt32_Some_len b v : readInt32 b = Some v -> 4 <= len b.
Proof.
  destruct b as [| b0 [| b1 [| b2 [| b3 b]]]]; simpl; try done.
  intros _. unfold len. simpl. lia.
Qed.

Lemma readInt32_app b rest v :
  readInt32 b = Some v -> readInt32 (b ++ rest) = Some v.
Proof. by destruct b as [| b0 [| b1 [| b2 [| b3 b]]]]. Qed.

Lemma readInt32_take b n :
  (4 <= n)%nat -> readInt32 (take n b) = readInt32 b.
Proof.
  intros Hn. do 4 (destruct n as [| n]; [lia |]).
  by destruct b as [| b0 [| b1 [| b2 [| b3 b]]]].
Qed.

(** What a successful parse guarantees: the document is the span the
    buffer declares, and the declared size is within the buffer. *)
Lemma parseSimpleBSON_ok b d :
  parseSimpleBSON b = (d, None) ->
  readInt32 b = Some (Size d) /\ Size d <= len b
  /\ BSON d = take (Z.to_nat (Size d)) b.
Proof.
  unfold parseSimpleBSON. destruct (readInt32 b) as [size |]; [| done].
  destruct (Z.ltb_spec (len b) size); [done |].
  intros [= <-]. simpl. repeat split; done || lia.
Qed.

(** A declared size within the buffer is accepted, whatever its sign. *)
Lemma parseSimpleBSON_accepts b size :
  readInt32 b = Some size -> size <= len b ->
  parseSimpleBSON b
    = ({| Size := size; BSON := take (Z.to_nat size) b |}, None).
Proof.
  intros Hr Hle. unfold parseSimpleBSON. rewrite Hr.
  destruct (Z.ltb_spec (len b) size); [lia | done].
Qed.



Lemma framed_size d : framed d -> 4 <= Size d.
Proof.
  intros [Hs Hr]. red in Hs. rewrite Hs.
  by apply readInt32_Some_len in Hr.
Qed.

Lemma framed_declared d : framed d -> declared d.
Proof. intros Hf. split; [apply Hf | done]. Qed.

Lemma declared_sized docs : Forall declared docs -> Forall sized docs.
Proof. intros Hd. eapply Forall_impl; [exact Hd |]. by intros d [Hs _]. Qed.

(** A framed document at the front of a buffer is parsed back as it is. *)
Lemma parseSimpleBSON_framed d rest :
  framed d -> parseSimpleBSON (BSON d ++ rest) = (d, None).
Proof.
  intros Hf. pose proof (framed_size _ Hf) as H4.
  destruct Hf as [Hs Hr]. red in Hs.
  pose proof (len_nonneg rest).
  rewrite (parseSimpleBSON_accepts _ (Size d))
    by (by apply readInt32_app || (rewrite len_app; lia)).
  destruct d as [sz bs]; simpl in *. subst sz.
  unfold len. by rewrite Nat2Z.id, take_app_length.
Qed.

(** Conversely, a parsed document of a size that is not negative records
    the length of its span and heads the buffer; it is framed where its
    size leaves room for the four size bytes. *)
Lemma parseSimpleBSON_span b d :
  parseSimpleBSON b = (d, None) -> 0 <= Size d ->
  declared d /\ b = BSON d ++ drop (Z.to_nat (Size d)) b.
Proof.
  intros (Hr & Hsz & Hb)%parseSimpleBSON_ok Hpos.
  assert (Hs : sized d).
  { red. rewrite Hb. unfold len in *. rewrite length_take. lia. }
  split; [split; [done |] |].
  - intros H4. split; [done |]. rewrite Hb, readInt32_take by lia. done.
  - rewrite Hb at 1. by rewrite take_drop.
Qed.

Lemma slice_from_framed d rest :
  framed d -> slice_from (BSON d ++ rest) (Size d) = Return rest.
Proof.
  intros [Hs _]. red in Hs. pose proof (len_nonneg (BSON d)).
  pose proof (len_nonneg rest).
  rewrite slice_from_ok by (rewrite len_app; lia).
  rewrite Hs. unfold len. by rewrite Nat2Z.id, drop_app_length.
Qed.

(** A cursor advance that returns was in range. *)
Lemma slice_from_returns {A} (s r : list A) (lo : Z) :
  slice_from s lo = Return r -> 0 <= lo <= len s /\ r = drop (Z.to_nat lo) s.
Proof.
  unfold slice_from.
  destruct (Z.ltb_spec lo 0); cbn [orb]; [done |].
  destruct (Z.ltb_spec (len s) lo); [done |].
  intros [= <-]. split; [lia | done].
Qed.




End ParseFacts.

(** ** The output-document loop *)

Section LoopFacts.

Lemma spans_cons d docs : spans (d :: docs) = BSON d ++ spans docs.
Proof. done. Qed.

Lemma appendOutputDocs_nil rm : appendOutputDocs rm [] = rm.
Proof. destruct rm. unfold appendOutputDocs. simpl. by rewrite app_nil_r. Qed.

Lemma appendOutputDocs_cons rm d outs :
  appendOutputDocs (appendOutputDoc rm d) outs = appendOutputDocs rm (d :: outs).
Proof.
  unfold appendOutputDocs, appendOutputDoc. simpl.
  by rewrite <- (assoc_L (++)).
Qed.

(** On a buffer made of framed spans the loop collects them in order. *)
Lemma parseOutputDocs_spans outs : forall fuel rm,
  Forall framed outs -> (length (spans outs) <= fuel)%nat ->
  parseOutputDocs fuel rm (spans outs) = Return (appendOutputDocs rm outs, None).
Proof.
  induction outs as [| d outs IH]; intros fuel rm Hf Hfuel.
  - destruct fuel; simpl; by rewrite appendOutputDocs_nil.
  - inversion Hf as [| ? ? Hd Hds]; subst.
    pose proof (framed_size _ Hd) as H4. destruct (Hd) as [Hs _]. red in Hs.
    rewrite spans_cons in *. rewrite length_app in Hfuel.
    unfold len in Hs.
    destruct fuel as [| fuel]; [lia |].
    cbn [parseOutputDocs].
    destruct (Z.ltb_spec 0 (len (BSON d ++ spans outs)));
      [| rewrite len_app in *; unfold len in *; lia].
    rewrite parseSimpleBSON_framed by done.
    rewrite slice_from_framed by done. cbn [bind].
    rewrite IH by (done || lia). by rewrite appendOutputDocs_cons.
Qed.

(** Conversely, whatever the loop collects without error tiles the buffer. *)
Lemma parseOutputDocs_inv fuel : forall rm buf rm',
  parseOutputDocs fuel rm buf = Return (rm', None) ->
  exists outs, rm' = appendOutputDocs rm outs /\ Forall declared outs
               /\ buf = spans outs.
Proof.
  induction fuel as [| fuel IH]; intros rm buf rm'; cbn [parseOutputDocs].
  - destruct (Z.ltb_spec 0 (len buf)); [done |].
    intros [= <-]. exists []. rewrite appendOutputDocs_nil.
    destruct buf; [done | unfold len in *; simpl in *; lia].
  - destruct (Z.ltb_spec 0 (len buf)).
    + destruct (parseSimpleBSON buf) as [doc [e |]] eqn:Hp; [done |].
      destruct (slice_from buf (Size doc)) as [buf1 | |] eqn:Hsl;
        cbn [bind]; [| done | done].
      apply slice_from_returns in Hsl as [Hrange ->].
      destruct (parseSimpleBSON_span _ _ Hp) as [Hf Hb]; [lia |].
      intros (outs & -> & Hfs & Hrest)%IH.
      exists (doc :: outs). rewrite appendOutputDocs_cons.
      repeat split; [by constructor |].
      rewrite spans_cons, <- Hrest. done.
    + intros [= <-]. exists []. rewrite appendOutputDocs_nil.
      destruct buf; [done | unfold len in *; simpl in *; lia].
Qed.



(** A size of zero or less met by the loop keeps it from returning, however
    many rounds it is given: below zero the cursor advance is out of range,
    and at zero the next round reads the same document again. *)
Lemma parseOutputDocs_nonPositive buf :
  declaresNonPositive buf -> forall fuel rm r,
  parseOutputDocs fuel rm buf <> Return r.
Proof.
  induction 1 as [buf size Hr Hle | buf size Hr Hsz _ IH];
    pose proof (readInt32_Some_len _ _ Hr) as H4.
  - intros fuel. induction fuel as [| fuel IHfuel]; intros rm r;
      cbn [parseOutputDocs];
      (destruct (Z.ltb_spec 0 (len buf)); [| lia]); [done |].
    rewrite (parseSimpleBSON_accepts _ _ Hr) by lia. cbn [Size].
    unfold slice_from. destruct (Z.ltb_spec size 0); cbn [orb]; [done |].
    assert (size = 0) as -> by lia.
    destruct (Z.ltb_spec (len buf) 0); [lia |]. cbn [bind].
    change (Z.to_nat 0) with 0%nat. rewrite drop_0. apply IHfuel.
  - intros [| fuel] rm r; cbn [parseOutputDocs];
      (destruct (Z.ltb_spec 0 (len buf)); [| lia]); [done |].
    rewrite (parseSimpleBSON_accepts _ _ Hr) by lia. cbn [Size].
    rewrite slice_from_ok by lia. cbn [bind]. apply IH.
Qed.

End LoopFacts.

(** ** parseCommandReplyMessage *)

Section ParseMessageFacts.

(** A buffer of framed spans parses into exactly those documents. *)
Lemma parseCommandReplyMessage_spans h cr md outs :
  framed cr -> framed md -> Forall framed outs ->
  parseCommandReplyMessage h (spans (cr :: md :: outs)) =
    Return ({| header := h; CommandReply := cr; Metadata := md;
               OutputDocs := outs |}, None).
Proof.
  intros Hcr Hmd Houts. unfold parseCommandReplyMessage.
  rewrite !spans_cons.
  rewrite parseSimpleBSON_framed by done. cbn [CommandReply].
  rewrite slice_from_framed by done. cbn [bind].
  rewrite parseSimpleBSON_framed by done. cbn [Metadata].
  rewrite slice_from_framed by done. cbn [bind].
  by rewrite parseOutputDocs_spans.
Qed.

(** An error-free parse tiles the buffer with the documents it returns. *)
Lemma parseCommandReplyMessage_inv h buf rm :
  parseCommandReplyMessage h buf = Return (rm, None) ->
  header rm = h /\ Forall declared (docsOf rm) /\ buf = spans (docsOf rm).
Proof.
  unfold parseCommandReplyMessage.
  destruct (parseSimpleBSON buf) as [cr [e |]] eqn:Hp1; [done |].
  cbn [CommandReply].
  destruct (slice_from buf (Size cr)) as [buf1 | |] eqn:Hsl1;
    cbn [bind]; [| done | done].
  apply slice_from_returns in Hsl1 as [Hrange1 ->].
  destruct (parseSimpleBSON_span _ _ Hp1) as [Hf1 Hb1]; [lia |].
  set (buf1 := drop _ buf) in *.
  destruct (parseSimpleBSON buf1) as [md [e |]] eqn:Hp2; [done |].
  cbn [Metadata].
  destruct (slice_from buf1 (Size md)) as [buf2 | |] eqn:Hsl2;
    cbn [bind]; [| done | done].
  apply slice_from_returns in Hsl2 as [Hrange2 ->].
  destruct (parseSimpleBSON_span _ _ Hp2) as [Hf2 Hb2]; [lia |].
  set (buf2 := drop _ buf1) in *.
  intros (outs & -> & Hfs & Hrest)%parseOutputDocs_inv.
  unfold docsOf, appendOutputDocs. cbn [header CommandReply Metadata OutputDocs app].
  split; [done |]. split; [by do 2 (constructor; [done |]) |].
  rewrite !spans_cons, <- Hrest, <- Hb2. done.
Qed.

End ParseMessageFacts.

(** ** The claims about the CommandReply codec *)

Section WireClaims.

Lemma setHeaderSize_idem m s s' :
  setHeaderSize (setHeaderSize m s) s' = setHeaderSize m s'.
Proof. done. Qed.

(** The message [Serialize] leaves behind differs from the one it was called
    on in the header size only, which is the wrapped 64-bit sum. *)
Lemma Serialize_header m m' buf :
  Serialize m = Return (m', buf) ->
  m' = setHeaderSize m (int32 (sumSizes 16 (docsOf m))).
Proof.
  rewrite Serialize_unfold. cbv zeta.
  destruct (make _) as [b0 | |]; cbn [bind]; [| done | done].
  destruct (MsgHeader.WriteInto _ b0) as [b1 | |]; cbn [bind]; [| done | done].
  destruct (copyDocs _ _ b1) as [[loc b2] | |]; cbn [bind]; [| done | done].
  by intros [= <- _].
Qed.

(** C1 (as amended): for every CommandReplyMessage whose documents are framed
    (the recorded Size is the length of the span and is the size the span
    declares in its first four bytes) and whose total size fits a Go int,
    as the length of a slice does, Serialize returns, and parsing what
    follows its 16 header bytes under any header [h] returns, without error,
    a message with header [h] and the CommandReply, Metadata and OutputDocs
    of [m]; under the header Serialize left in [m] the parse result is [m]
    itself. *)
Theorem Serialize_parse_roundtrip (m : CommandReplyMessage) (h : MessageHeader) :
  Forall framed (docsOf m) -> messageSize m <= MaxInt ->
  let m' := setHeaderSize m (int32 (messageSize m)) in
  reparse m h = Return (m', (withHeader m h, None))
  /\ reparse m (header m') = Return (m', (m', None)).
Proof.
  intros Hf Hmax m'.
  assert (Hsz : Forall sized (docsOf m)).
  { eapply Forall_impl; [exact Hf |]. by intros d [? _]. }
  pose proof (Serialize_spans m Hsz Hmax) as HS. cbv zeta in HS. fold m' in HS.
  assert (Hre : forall h0,
    reparse m h0 = Return (m', (withHeader m h0, None))).
  { intros h0. unfold reparse. rewrite HS. cbn [bind].
    rewrite slice_from_ok
      by (rewrite len_app; change (len (headerBytes (header m'))) with 16;
          pose proof (len_nonneg (spans (docsOf m))); lia).
    cbn [bind]. change (Z.to_nat 16) with (length (headerBytes (header m'))).
    rewrite drop_app_length.
    unfold docsOf in *.
    inversion Hf as [| ? ? Hcr Hf']; subst.
    inversion Hf' as [| ? ? Hmd Houts]; subst.
    by rewrite parseCommandReplyMessage_spans. }
  split; [apply Hre |]. by rewrite Hre.
Qed.

(** Conversely, whenever the reparse gives back the documents of the
    message, each of them records the length of its span, and those of four
    bytes or more are framed. *)
Lemma reparse_only_declared m h m' rm :
  reparse m h = Return (m', (rm, None)) -> docsOf rm = docsOf m ->
  Forall declared (docsOf m).
Proof.
  unfold reparse.
  destruct (Serialize m) as [[m1 buf] | |]; cbn [bind]; [| done | done].
  destruct (slice_from buf 16) as [payload | |]; cbn [bind]; [| done | done].
  destruct (parseCommandReplyMessage h payload) as [[rm1 err] | |] eqn:Hp;
    cbn [bind]; [| done | done].
  intros [= _ -> ->] <-.
  by apply parseCommandReplyMessage_inv in Hp as (_ & ? & _).
Qed.

(** C1, witness: the sample reply. *)
Lemma Serialize_parse_roundtrip_sample :
  reparse sampleReply sampleHeader
    = Return (setHeaderSize sampleReply 52, (sampleReply, None)).
Proof.
  assert (Hf : Forall framed (docsOf sampleReply)).
  { repeat constructor. }
  assert (Hmax : messageSize sampleReply <= MaxInt) by (by vm_compute).
  exact (proj1 (Serialize_parse_roundtrip sampleReply sampleHeader Hf Hmax)).
Defined.

(** C1 (as stated) fails: every document of [emptyFirstReply] records the
    length of its span, yet the parse takes the Metadata span for the
    CommandReply and then fails on the empty rest. *)
Lemma reparse_emptyFirstReply :
  Forall sized (docsOf emptyFirstReply)
  /\ reparse emptyFirstReply (header emptyFirstReply)
     = Return (setHeaderSize emptyFirstReply 21,
               ({| header := sampleHeader; CommandReply := doc5;
                   Metadata := emptySimpleBSON; OutputDocs := [] |},
                Some MalformedMessage)).
Proof. split; [repeat constructor | by vm_compute]. Qed.

(** C2 (as amended): for every CommandReplyMessage whose documents record
    non-negative Sizes adding up, with the 16 header bytes, to at most
    2^31-1, Serialize sets the header's Size to 16 plus the recorded Sizes
    and returns a buffer of exactly that length, which starts with that size
    in little-endian, whatever [stale] value the header's Size held before
    the call. *)
Theorem Serialize_recomputes_size (m : CommandReplyMessage) (stale : Z) :
  Forall (fun d => 0 <= Size d) (docsOf m) -> messageSize m <= MaxInt32 ->
  exists buf,
    Serialize (setHeaderSize m stale)
      = Return (setHeaderSize m (messageSize m), buf)
    /\ MsgHeader.Size (header (setHeaderSize m (messageSize m)))
       = 16 + Size (CommandReply m) + Size (Metadata m)
         + docSizes (OutputDocs m)
    /\ len buf = messageSize m
    /\ readInt32 buf = Some (messageSize m).
Proof.
  intros Hpos Hmax.
  destruct (Serialize_sized (setHeaderSize m stale) Hpos Hmax)
    as (buf & HS & HL & Hhdr).
  exists buf. rewrite HS, setHeaderSize_idem. repeat split; [done |].
  rewrite <- (readInt32_take buf 16) by lia. rewrite Hhdr.
  unfold headerBytes. apply readInt32_int32_bytes.
  pose proof (messageSize_ge16 _ Hpos). unfold MinInt32.
  change (MsgHeader.Size _) with (messageSize m). lia.
Qed.

(** C2, witness: the sample reply with a stale size of 99. *)
Lemma Serialize_recomputes_size_sample :
  exists buf,
    Serialize (setHeaderSize sampleReply 99)
      = Return (setHeaderSize sampleReply 52, buf)
    /\ len buf = 52.
Proof.
  assert (Hpos : Forall (fun d => 0 <= Size d) (docsOf sampleReply)).
  { repeat constructor; by vm_compute. }
  assert (Hmax : messageSize sampleReply <= MaxInt32) by (by vm_compute).
  destruct (Serialize_recomputes_size sampleReply 99 Hpos Hmax)
    as (buf & HS & _ & HL & _).
  exists buf. split; [exact HS | exact HL].
Defined.

(** C2 (as stated) fails: with a negative recorded Size the total falls
    short of the header (here 16 - 17 + 5 = 4 bytes) and the header write
    panics, and with recorded Sizes beyond the int32 range no run of
    Serialize leaves 16 plus their sum in the header. *)
Lemma Serialize_size_unchecked :
  Serialize negativeSizeReply = Panic
  /\ messageSize hugeReply = 2147483668
  /\ forall m' buf, Serialize hugeReply = Return (m', buf) ->
       MsgHeader.Size (header m') = -2147483628.
Proof.
  split; [by vm_compute |]. split; [by vm_compute |].
  intros m' buf ->%Serialize_header. by vm_compute.
Qed.




(** C6: on a buffer made of framed spans, parseCommandReplyMessage takes the
    first span as the CommandReply and the second as the Metadata, each
    exactly as long as its recorded size, and collects the remaining spans,
    in buffer order and down to the last byte, as the OutputDocs (possibly
    none).  Conversely, whatever it returns with a nil error tiles its
    buffer in that way: each document records the length of its span, and
    is framed where it is four bytes or more. *)
Theorem parseCommandReplyMessage_consumes
    (h : MessageHeader) (cr md : SimpleBSON) (outs : list SimpleBSON) :
  framed cr -> framed md -> Forall framed outs ->
  let buf := spans (cr :: md :: outs) in
  parseCommandReplyMessage h buf =
    Return ({| header := h; CommandReply := cr; Metadata := md;
               OutputDocs := outs |}, None)
  /\ slice buf 0 (Size cr) = Return (BSON cr)
  /\ slice buf (Size cr) (Size cr + Size md) = Return (BSON md)
  /\ slice_from buf (Size cr + Size md) = Return (spans outs)
  /\ len buf = Size cr + Size md + docSizes outs
  /\ (forall buf' rm,
        parseCommandReplyMessage h buf' = Return (rm, None) ->
        header rm = h /\ Forall declared (docsOf rm)
        /\ buf' = spans (docsOf rm)).
Proof.
  intros Hcr Hmd Houts buf.
  split; [by apply parseCommandReplyMessage_spans |].
  enough (Hcur : slice buf 0 (Size cr) = Return (BSON cr)
                 /\ slice buf (Size cr) (Size cr + Size md) = Return (BSON md)
                 /\ slice_from buf (Size cr + Size md) = Return (spans outs)
                 /\ len buf = Size cr + Size md + docSizes outs).
  { destruct Hcur as (H1 & H2 & H3 & H4).
    split; [exact H1 |]. split; [exact H2 |]. split; [exact H3 |].
    split; [exact H4 |]. intros buf' rm. apply parseCommandReplyMessage_inv. }
  assert (Hs : Forall sized outs).
  { eapply Forall_impl; [exact Houts |]. by intros d [? _]. }
  pose proof (docSizes_spans _ Hs) as Hsum.
  destruct Hcr as [Hcr _], Hmd as [Hmd _]. red in Hcr, Hmd.
  pose proof (len_nonneg (BSON cr)). pose proof (len_nonneg (BSON md)).
  pose proof (len_nonneg (spans outs)).
  assert (Hl : len buf = Size cr + Size md + docSizes outs).
  { unfold buf. rewrite !spans_cons, !len_app. lia. }
  unfold slice, slice_from. rewrite Hl, Hsum.
  repeat match goal with
         | |- context [?a <? ?b] => destruct (Z.ltb_spec a b); [lia |]
         end.
  cbn [orb]. unfold buf. rewrite !spans_cons.
  replace (Size cr + Size md - Size cr) with (Size md) by lia.
  rewrite Z.sub_0_r, Z2Nat.inj_add, Hcr, Hmd by lia.
  unfold len in *. rewrite !Nat2Z.id. change (Z.to_nat 0) with 0%nat.
  rewrite drop_0, take_app_length, drop_app_length, take_app_length.
  split; [done |]. split; [done |]. split; [| lia].
  by rewrite (assoc_L (++)), <- length_app, drop_app_length.
Qed.

(** C6, witness: the payload of the sample reply. *)
Lemma parseCommandReplyMessage_consumes_sample :
  parseCommandReplyMessage sampleHeader (spans (docsOf sampleReply))
    = Return (sampleReply, None).
Proof.
  refine (proj1 (parseCommandReplyMessage_consumes sampleHeader docOk doc5
                   [docOk; doc5] _ _ _)); repeat constructor.
Defined.

End WireClaims.

(** ** The error model *)

(** Closes [x ∉ l] and [x ∈ l -> _] goals over an explicit list of distinct
    literals. *)
Ltac elem_of_literals H :=
  repeat (apply elem_of_cons in H as [H | H]; [discriminate H |]);
  by apply elem_of_nil in H.

Section MongoErrorClaims.

(** C4 (as amended): for every MongoError, whatever its errInfo string, the
    document returned by ToBSON has no errInfo field and does not depend on
    errInfo at all; the string is only available through GetErrorInfo. *)
Theorem ToBSON_omits_errInfo (cause : option string) (c : Z) (name info : string) :
  let me := NewMongoErrorWithInfo cause c name info in
  ("errInfo" ∉ bson.keys (ToBSON me))
  /\ ToBSON me = ToBSON (NewMongoError cause c name)
  /\ GetErrorInfo me = info.
Proof.
  intros me. split; [| done].
  unfold me, ToBSON, bson.keys. destruct cause; simpl; intros H;
    elem_of_literals H.
Qed.

(** C4 (as stated) fails: an error with a non-empty errInfo renders without
    an errInfo field. *)
Lemma ToBSON_sampleError :
  GetErrorInfo sampleError = "retry later"
  /\ ToBSON sampleError =
       [bson.mkE "ok" (bson.Int 0);
        bson.mkE "errmsg" (bson.Str "connection closed");
        bson.mkE "code" (bson.Int 6);
        bson.mkE "codeName" (bson.Str "HostUnreachable")]
  /\ ("errInfo" ∉ bson.keys (ToBSON sampleError)).
Proof.
  split; [done |]. split; [done |]. simpl. intros H. elem_of_literals H.
Qed.

(** C5: for every MongoError, ToBSON returns a document that starts with
    {ok: 0}, goes on with {errmsg: the cause's message} exactly when there
    is a cause, and ends with code and codeName in that order. *)
Theorem ToBSON_shape (me : MongoError) :
  head (ToBSON me) = Some (bson.mkE "ok" (bson.Int 0))
  /\ (forall v, bson.mkE "errmsg" v ∈ ToBSON me
                 <-> exists msg, err me = Some msg /\ v = bson.Str msg)
  /\ ("errmsg" ∈ bson.keys (ToBSON me) <-> err me <> None)
  /\ exists front,
       ToBSON me = front ++ [bson.mkE "code" (bson.Int (code me));
                             bson.mkE "codeName" (bson.Str (codeName me))]
       /\ ("code" ∉ bson.keys front) /\ ("codeName" ∉ bson.keys front)
       /\ (length front = if err me is Some _ then 2%nat else 1%nat).
Proof.
  unfold ToBSON. destruct (err me) as [msg |]; simpl.
  - split; [done |]. split; [| split].
    + intros v. split.
      * intros H. exists msg. split; [done |].
        apply elem_of_cons in H as [H | H]; [discriminate H |].
        apply elem_of_cons in H as [H | H]; [congruence |].
        elem_of_literals H.
      * intros (? & [= <-] & ->). apply list_elem_of_further, list_elem_of_here.
    + split; [done |]. intros _. apply list_elem_of_further, list_elem_of_here.
    + exists [bson.mkE "ok" (bson.Int 0); bson.mkE "errmsg" (bson.Str msg)].
      repeat split; try done; simpl; intros H; elem_of_literals H.
  - split; [done |]. split; [| split].
    + intros v. split.
      * intros H. elem_of_literals H.
      * by intros (? & ? & _).
    + split; [| done]. intros H. elem_of_literals H.
    + exists [bson.mkE "ok" (bson.Int 0)].
      repeat split; try done; simpl; intros H; elem_of_literals H.
Qed.

(** C10: Error returns "code=<code> codeName=<codeName> errmsg = <message>"
    for every MongoError with a cause and panics on the nil dereference for
    every MongoError without one, although NewMongoError accepts a nil cause
    and ToBSON, GetCode, GetCodeName and GetErrorInfo are total on it. *)
Theorem Error_needs_cause (c : Z) (name info msg : string) :
  (forall me, (exists s, Error me = Return s) <-> err me <> None)
  /\ (forall me, Error me = Panic <-> err me = None)
  /\ Error (NewMongoErrorWithInfo (Some msg) c name info)
    = Return ("code=" +:+ fmtInt c +:+ " codeName=" +:+ name
              +:+ " errmsg = " +:+ msg)
  /\ Error (NewMongoError (Some msg) c name)
    = Return ("code=" +:+ fmtInt c +:+ " codeName=" +:+ name
              +:+ " errmsg = " +:+ msg)
  /\ Error (NewMongoErrorWithInfo None c name info) = Panic
  /\ Error (NewMongoError None c name) = Panic
  /\ ToBSON (NewMongoError None c name)
     = [bson.mkE "ok" (bson.Int 0); bson.mkE "code" (bson.Int c);
        bson.mkE "codeName" (bson.Str name)]
  /\ GetCode (NewMongoError None c name) = c
  /\ GetCodeName (NewMongoError None c name) = name
  /\ GetErrorInfo (NewMongoError None c name) = EmptyString.
Proof.
  split; [| split; [| repeat split]].
  - intros me. unfold Error. destruct (err me); split; try done.
    + eauto.
    + by intros [s Hs].
  - intros me. unfold Error. by destruct (err me).
Qed.

Example Error_sampleError :
  Error sampleError
    = Return "code=6 codeName=HostUnreachable errmsg = connection closed".
Proof. reflexivity. Qed.

Example Error_sampleErrorNoCause :
  Error sampleErrorNoCause = Panic
  /\ fmtInt (GetCode sampleErrorNoCause) = "-1".
Proof. split; reflexivity. Qed.

End MongoErrorClaims.

(** ** The sample interceptor *)

Section InterceptorFacts.

Lemma BSONIndexOf_range d key : -1 <= BSONIndexOf d key < len d.
Proof.
  unfold len. induction d as [| e d IH]; simpl; [lia |].
  destruct (String.eqb (bson.Key e) key); [lia |].
  destruct (Z.ltb_spec (BSONIndexOf d key) 0); lia.
Qed.

(** A negative index means no element is keyed [key]. *)
Lemma BSONIndexOf_absent d key :
  BSONIndexOf d key < 0 -> dropFirstKey key d = d /\ key ∉ bson.keys d.
Proof.
  induction d as [| e d IH]; simpl.
  - intros _. split; [done | apply not_elem_of_nil].
  - destruct (String.eqb_spec (bson.Key e) key) as [| Hne]; [lia |].
    destruct (Z.ltb_spec (BSONIndexOf d key) 0) as [Hlt | ]; [| lia].
    intros _. destruct (IH Hlt) as [-> Hnot]. split; [done |].
    intros [? | ?]%elem_of_cons; done.
Qed.

Lemma cut_at_BSONIndexOf d key :
  0 <= BSONIndexOf d key ->
  take (Z.to_nat (BSONIndexOf d key)) d
    ++ drop (Z.to_nat (BSONIndexOf d key + 1)) d = dropFirstKey key d.
Proof.
  induction d as [| e d IH]; simpl; [lia |].
  destruct (String.eqb (bson.Key e) key); [done |].
  destruct (Z.ltb_spec (BSONIndexOf d key) 0) as [| Hge]; [lia |].
  intros _. rewrite !Z2Nat.inj_add by lia. change (Z.to_nat 1) with 1%nat.
  rewrite !Nat.add_1_r. simpl. f_equal.
  rewrite <- IH by done. by rewrite Z2Nat.inj_add, Nat.add_1_r by lia.
Qed.

(** Cutting the element at the index found is dropping the first element
    keyed [key]; both slice expressions are in range. *)
Lemma removeAt_BSONIndexOf d key :
  0 <= BSONIndexOf d key ->
  removeAt d (BSONIndexOf d key) = Return (dropFirstKey key d).
Proof.
  intros Hidx. pose proof (BSONIndexOf_range d key) as Hr.
  unfold removeAt, slice. rewrite slice_from_ok by lia.
  repeat match goal with
         | |- context [?a <? ?b] => destruct (Z.ltb_spec a b); [lia |]
         end.
  cbn [orb bind]. f_equal. rewrite Z.sub_0_r. change (Z.to_nat 0) with 0%nat.
  rewrite drop_0. by apply cut_at_BSONIndexOf.
Qed.

Lemma otherFields_dropFirstKey key d :
  otherFields key (dropFirstKey key d) = otherFields key d.
Proof.
  unfold otherFields. induction d as [| e d IH]; cbn [dropFirstKey]; [done |].
  destruct (String.eqb_spec (bson.Key e) key) as [Heq | Hne]; cbv iota.
  - by rewrite (filter_cons_False _ e) by (by intros ?).
  - rewrite (filter_cons_True _ e (dropFirstKey key d)) by done.
    rewrite (filter_cons_True _ e d) by done. by rewrite IH.
Qed.

Lemma countKey_dropFirstKey key d :
  countKey key (dropFirstKey key d) = pred (countKey key d).
Proof.
  unfold countKey. induction d as [| e d IH]; cbn [dropFirstKey]; [done |].
  destruct (String.eqb_spec (bson.Key e) key) as [Heq | Hne]; cbv iota.
  - by rewrite (filter_cons_True _ e) by done.
  - rewrite (filter_cons_False _ e (dropFirstKey key d)) by done.
    rewrite (filter_cons_False _ e d) by done. by rewrite IH.
Qed.

Lemma countKey_zero key d : countKey key d = 0%nat -> key ∉ bson.keys d.
Proof.
  unfold countKey, bson.keys. induction d as [| e d IH]; cbn [map].
  - intros _. apply not_elem_of_nil.
  - destruct (decide (bson.Key e = key)) as [Heq | Hne].
    + by rewrite filter_cons_True by done.
    + rewrite filter_cons_False by done. intros Hnot%IH.
      intros [? | ?]%elem_of_cons; done.
Qed.

(** The "remove client" step of the interceptor, on any document. *)
Lemma remove_client_step query :
  (if 0 <=? BSONIndexOf query "client"
   then removeAt query (BSONIndexOf query "client")
   else Return query) = Return (dropFirstKey "client" query).
Proof.
  destruct (Z.leb_spec 0 (BSONIndexOf query "client")).
  - by apply removeAt_BSONIndexOf.
  - by destruct (BSONIndexOf_absent query "client") as [-> _].
Qed.

End InterceptorFacts.

(** ** The sample document conversions *)

Section SampleCodecFacts.

Import Sample.

Lemma splitCString_app k rest :
  noNul k = true -> splitCString (k ++ x00 :: rest) = Some (k, rest).
Proof.
  induction k as [| c k IH]; simpl; [done |].
  intros [Hc Hk]%andb_prop. apply negb_true_iff in Hc. rewrite Hc.
  by rewrite (IH Hk).
Qed.

Lemma splitCString_cstring s rest :
  noNul (list_byte_of_string s) = true ->
  splitCString (cstring s ++ rest) = Some (list_byte_of_string s, rest).
Proof.
  intros Hs. unfold cstring. rewrite <- (assoc_L (++)).
  by apply splitCString_app.
Qed.

Lemma decodeValue_Int z rest :
  MinInt32 <= z <= MaxInt32 ->
  decodeValue x10 (int32_bytes z ++ rest) = Some (bson.Int z, rest).
Proof.
  intros Hz. unfold decodeValue. by rewrite readInt32_int32_bytes.
Qed.

Lemma decodeValue_Str s rest :
  len (cstring s) <= MaxInt32 ->
  decodeValue x02 (int32_bytes (len (cstring s)) ++ cstring s ++ rest)
    = Some (bson.Str s, rest).
Proof.
  intros Hs. unfold decodeValue.
  assert (Hlen : len (cstring s) = len (list_byte_of_string s) + 1).
  { unfold cstring. rewrite len_app. done. }
  pose proof (len_nonneg (list_byte_of_string s)) as H0.
  pose proof (len_nonneg rest) as Hr.
  rewrite readInt32_int32_bytes by (unfold MinInt32; lia).
  cbn [Byte.eqb]. change (drop 4 (int32_bytes _ ++ ?b)) with b.
  destruct (Z.ltb_spec (len (cstring s)) 1); [lia |].
  destruct (Z.ltb_spec (len (cstring s ++ rest)) (len (cstring s)));
    [rewrite len_app in *; lia |].
  cbn [orb]. f_equal. f_equal.
  - f_equal. rewrite Hlen. unfold cstring, len.
    replace (Z.to_nat (Z.of_nat (length (list_byte_of_string s)) + 1 - 1))
      with (length (list_byte_of_string s)) by lia.
    rewrite <- (assoc_L (++)), take_app_length.
    apply string_of_list_byte_of_string.
  - unfold len. by rewrite Nat2Z.id, drop_app_length.
Qed.

Lemma decodeValue_Raw doc rest n :
  readInt32 doc = Some n -> n = len doc -> 5 <= n ->
  decodeValue x03 (doc ++ rest) = Some (bson.Raw doc, rest).
Proof.
  intros Hr -> H5. unfold decodeValue. rewrite (readInt32_app _ _ _ Hr).
  cbn [Byte.eqb]. pose proof (len_nonneg rest).
  destruct (Z.ltb_spec (len doc) 5); [lia |].
  destruct (Z.ltb_spec (len (doc ++ rest)) (len doc));
    [rewrite len_app in *; lia |].
  cbn [orb]. unfold len. by rewrite Nat2Z.id, take_app_length, drop_app_length.
Qed.

(** One element is read back as it was written. *)
Lemma decodeElems_cons fuel e b :
  encodableElem e = true ->
  decodeElems (S fuel) (encodeElem e ++ b) =
    match decodeElems fuel b with
    | Some d => Some (e :: d)
    | None => None
    end.
Proof.
  destruct e as [k v]. unfold encodableElem, encodeElem. cbn [bson.Key bson.Val].
  intros [Hk Hv]%andb_prop.
  assert (Hkey : bson.mkE (string_of_list_byte (list_byte_of_string k)) v
                 = bson.mkE k v)
    by (by rewrite string_of_list_byte_of_string).
  destruct v as [z | s | doc]; cbn [encodableValue] in Hv;
    cbn [app decodeElems Byte.eqb]; rewrite <- !(assoc_L (++)),
      (splitCString_cstring _ _ Hk).
  - apply andb_prop in Hv as [?%Z.leb_le ?%Z.leb_le].
    rewrite decodeValue_Int by done. by rewrite Hkey.
  - apply Z.leb_le in Hv.
    rewrite decodeValue_Str by done. by rewrite Hkey.
  - destruct (readInt32 doc) as [n |] eqn:Hr; [| done].
    apply andb_prop in Hv as [?%Z.eqb_eq ?%Z.leb_le].
    rewrite (decodeValue_Raw doc _ n) by done. by rewrite Hkey.
Qed.

Lemma decodeElems_encode d : forall fuel,
  forallb encodableElem d = true -> (length d < fuel)%nat ->
  decodeElems fuel (concat (map encodeElem d) ++ [x00]) = Some d.
Proof.
  induction d as [| e d IH]; intros fuel Hd Hfuel.
  - destruct fuel; [lia | done].
  - apply andb_prop in Hd as [He Hd]. cbn [length] in Hfuel.
    destruct fuel as [| fuel]; [lia |].
    cbn [map concat]. rewrite <- (assoc_L (++)), decodeElems_cons by done.
    by rewrite IH by (done || lia).
Qed.

Lemma encodeElem_nonempty e : (1 <= length (encodeElem e))%nat.
Proof. unfold encodeElem. destruct (bson.Val e); simpl; lia. Qed.

Lemma encodeElems_length d :
  (length d <= length (concat (map encodeElem d)))%nat.
Proof.
  induction d as [| e d IH]; simpl; [lia |].
  rewrite length_app. pose proof (encodeElem_nonempty e). lia.
Qed.

(** What [encodeDoc] writes, [decodeDoc] reads back. *)
Lemma decodeDoc_encodeDoc d :
  encodable d = true -> decodeDoc (encodeDoc d) = (d, None).
Proof.
  unfold encodable. intros [Hd Hsz%Z.leb_le]%andb_prop.
  unfold decodeDoc, encodeDoc in *. cbn [Size BSON] in *.
  set (body := concat (map encodeElem d) ++ [x00]) in *.
  pose proof (len_nonneg body).
  rewrite readInt32_int32_bytes by (unfold MinInt32; lia).
  rewrite len_app. change (len (int32_bytes _)) with 4.
  rewrite Z.eqb_refl. cbn [negb].
  change (drop 4 (int32_bytes _ ++ body)) with body. unfold body.
  rewrite decodeElems_encode; [done | done |].
  pose proof (encodeElems_length d). rewrite !length_app. simpl. lia.
Qed.

(** The documents [encodeDoc] writes are framed: they can be embedded in a
    message and parsed back from it. *)
Lemma encodeDoc_framed d : encodable d = true -> framed (encodeDoc d).
Proof.
  unfold encodable. intros [_ Hsz%Z.leb_le]%andb_prop.
  unfold framed, sized, encodeDoc in *. cbn [Size BSON] in *.
  set (body := concat (map encodeElem d) ++ [x00]) in *.
  pose proof (len_nonneg body). split.
  - rewrite len_app. done.
  - apply readInt32_int32_bytes. unfold MinInt32. lia.
Qed.

Lemma sample_laws : @HelpersLaws Sample.helpers.
Proof.
  constructor. intros d sb. cbn [SimpleBSONConvert helpers ToBSOND].
  unfold convert. destruct (encodable d) eqn:Hd; [| done].
  intros [= <-]. exists d. by rewrite decodeDoc_encodeDoc.
Qed.

End SampleCodecFacts.

Section InterceptorClaims.

Context `{HelpersLaws}.

(** C7 (as amended): a message that is not a handshake (a QueryMessage on a
    command namespace whose first key lower-cases to "ismaster") is returned
    unchanged with no response interceptor and no error.  For a handshake
    the returned message is the query rebuilt from its document without the
    first element keyed "client" (the call panics when the rebuild fails):
    the rebuilt document decodes to the keys of the original without the
    first "client", all other fields are preserved in order, one "client"
    element fewer is left, and none is left when the document had at most
    one. *)
Theorem InterceptClientToMongo_strips_first_client (m : Message) :
  (isHandshake m = false -> InterceptClientToMongo m = Return (m, None, None))
  /\ (forall mm query,
        m = QueryMsg mm -> isHandshake m = true ->
        ToBSOND (Query mm) = (query, None) ->
        let query' := dropFirstKey "client" query in
        match SimpleBSONConvert query' with
        | (qb, None) =>
            InterceptClientToMongo m
              = Return (QueryMsg (setQuery mm qb), None, None)
            /\ exists d', ToBSOND qb = (d', None)
                          /\ bson.keys d' = bson.keys query'
        | (_, Some _) => InterceptClientToMongo m = Panic
        end
        /\ otherFields "client" query' = otherFields "client" query
        /\ countKey "client" query' = pred (countKey "client" query)
        /\ ((countKey "client" query <= 1)%nat -> "client" ∉ bson.keys query')).
Proof.
  split.
  - destruct m as [mm | |]; [| done | done]. simpl.
    destruct (NamespaceIsCommand (Namespace mm)); [| done]. simpl.
    destruct (ToBSOND (Query mm)) as [[| e0 query] [e |]]; try done.
    by intros ->.
  - intros mm query -> Hhs Hdec query'. simpl in *.
    destruct (NamespaceIsCommand (Namespace mm)); [| done]. simpl in *.
    rewrite Hdec in *.
    destruct query as [| e0 query]; [done |].
    rewrite Hhs. cbn [negb].
    split; [| split; [| split]].
    + rewrite remove_client_step. cbn [bind]. fold query'.
      destruct (SimpleBSONConvert query') as [qb [e |]] eqn:Hconv; [done |].
      split; [done |]. by apply convert_keys.
    + apply otherFields_dropFirstKey.
    + apply countKey_dropFirstKey.
    + intros Hle. apply countKey_zero.
      unfold query'. rewrite countKey_dropFirstKey. lia.
Qed.

End InterceptorClaims.

Section InterceptorSamples.

Import Sample.

(** C7, witness: the handshake loses its client field, the find is left
    alone. *)
Lemma InterceptClientToMongo_handshake :
  InterceptClientToMongo (QueryMsg handshake)
    = Return (QueryMsg (queryOf "admin.$cmd"
                          [bson.mkE "isMaster" (bson.Int 1);
                           bson.mkE "compression" (bson.Int 0)]), None, None)
  /\ InterceptClientToMongo (QueryMsg findQuery)
     = Return (QueryMsg findQuery, None, None).
Proof.
  split.
  - destruct (@InterceptClientToMongo_strips_first_client helpers sample_laws
                (QueryMsg handshake)) as [_ Hstrip].
    destruct (Hstrip handshake handshakeDoc eq_refl eq_refl eq_refl)
      as [Hret _].
    exact (proj1 Hret).
  - destruct (@InterceptClientToMongo_strips_first_client helpers sample_laws
                (QueryMsg findQuery)) as [Hsame _].
    apply Hsame. by vm_compute.
Defined.

(** C7 (as stated) fails: of two "client" fields only the first is removed,
    so the returned query document still has a "client" key. *)
Lemma InterceptClientToMongo_twoClients :
  isHandshake (QueryMsg twoClients) = true
  /\ InterceptClientToMongo (QueryMsg twoClients)
     = Return (QueryMsg (queryOf "admin.$cmd"
                           [bson.mkE "isMaster" (bson.Int 1);
                            bson.mkE "client" (bson.Str "second")]),
               None, None)
  /\ ToBSOND (encodeDoc [bson.mkE "isMaster" (bson.Int 1);
                         bson.mkE "client" (bson.Str "second")])
     = ([bson.mkE "isMaster" (bson.Int 1);
         bson.mkE "client" (bson.Str "second")], None)
  /\ ("client" ∈ bson.keys [bson.mkE "isMaster" (bson.Int 1);
                            bson.mkE "client" (bson.Str "second")]).
Proof.
  split; [by vm_compute |]. split; [by vm_compute |].
  split; [by vm_compute |].
  apply list_elem_of_further, list_elem_of_here.
Qed.

End InterceptorSamples.

(** ** The pool and its counter *)

Section PoolFacts.

Lemma openSocket_created dial p p' a :
  openSocket dial p = (p', a) ->
  connectionsCreated p' =
    (connectionsCreated p + if isOpened a then 1 else 0)%nat.
Proof.
  unfold openSocket. destruct dial; intros [= <- <-]; simpl; lia.
Qed.

Lemma acquire_created live dial p p' a :
  acquire live dial p = (p', a) ->
  connectionsCreated p' =
    (connectionsCreated p + if isOpened a then 1 else 0)%nat.
Proof.
  unfold acquire. destruct (elements (idle p)) as [| c cs].
  - apply openSocket_created.
  - destruct live.
    + intros [= <- <-]. simpl. lia.
    + intros Ho%openSocket_created. done.
Qed.

Lemma release_created c healthy p :
  connectionsCreated (release c healthy p) = connectionsCreated p.
Proof. by destruct healthy. Qed.

Lemma socketsOpened_cons a log :
  socketsOpened (a :: log) =
    ((if isOpened a then 1 else 0) + socketsOpened log)%nat.
Proof.
  unfold socketsOpened. destruct (isOpened a) eqn:Ha.
  - by rewrite filter_cons_True.
  - rewrite filter_cons_False; [done | by rewrite Ha].
Qed.

Lemma socketsOpened_app log1 log2 :
  socketsOpened (log1 ++ log2) = (socketsOpened log1 + socketsOpened log2)%nat.
Proof. unfold socketsOpened. by rewrite filter_app, length_app. Qed.

(** Over any run the counter grows by the number of sockets opened. *)
Lemma poolRun_created ops : forall p p' log,
  poolRun p ops = (p', log) ->
  connectionsCreated p' = (connectionsCreated p + socketsOpened log)%nat.
Proof.
  induction ops as [| op ops IH]; intros p p' log; simpl.
  - intros [= <- <-]. unfold socketsOpened. simpl. lia.
  - destruct op as [live dial | c healthy]; simpl.
    + destruct (acquire live dial p) as [p1 a] eqn:Ha.
      destruct (poolRun p1 ops) as [p2 log2] eqn:Hr.
      intros [= <- <-]. rewrite (IH _ _ _ Hr), (acquire_created _ _ _ _ _ Ha).
      rewrite socketsOpened_cons. lia.
    + destruct (poolRun (release c healthy p) ops) as [p2 log2] eqn:Hr.
      intros [= <- <-]. by rewrite (IH _ _ _ Hr), release_created.
Qed.

Lemma acquire_idle live dial p p' a :
  acquire live dial p = (p', a) ->
  idle p' ⊆ idle p
  /\ match a with
     | Reused c => c ∈ idle p /\ c ∉ idle p'
     | Opened c => c = connectionsCreated p
     | Unavailable => True
     end.
Proof.
  unfold acquire, openSocket.
  destruct (elements (idle p)) as [| c cs] eqn:He.
  - destruct dial; intros [= <- <-]; done.
  - assert (Hc : c ∈ idle p).
    { apply elem_of_elements. rewrite He. apply list_elem_of_here. }
    destruct live; [| destruct dial]; intros [= <- <-]; simpl; set_solver.
Qed.

Lemma acquire_wf live dial p p' a :
  poolWf p -> acquire live dial p = (p', a) -> poolWf p'.
Proof.
  intros Hwf Ha c Hc.
  pose proof (acquire_created _ _ _ _ _ Ha) as Hn.
  destruct (acquire_idle _ _ _ _ _ Ha) as [Hsub _].
  specialize (Hwf c (Hsub c Hc)). lia.
Qed.

End PoolFacts.

Section PoolClaims.

(** C8: over every sequence of pool operations run from a new pool the
    connections-created accessor returns exactly the number of sockets
    opened so far; further operations never lower it; an acquisition raises
    it by one exactly when it opens a socket, and a release, healthy or
    not, leaves it as it is. *)
Theorem GetConnectionsCreated_counts_sockets (ops more : list poolOp) :
  let '(p, log) := poolRun newPool ops in
  let '(p', log') := poolRun p more in
  GetConnectionsCreated p = socketsOpened log
  /\ GetConnectionsCreated p' = socketsOpened (log ++ log')
  /\ (GetConnectionsCreated p <= GetConnectionsCreated p')%nat
  /\ (forall c healthy,
        GetConnectionsCreated (release c healthy p) = GetConnectionsCreated p)
  /\ (forall live dial,
        let '(q, a) := acquire live dial p in
        GetConnectionsCreated q =
          (GetConnectionsCreated p + if isOpened a then 1 else 0)%nat).
Proof.
  destruct (poolRun newPool ops) as [p log] eqn:Hr.
  destruct (poolRun p more) as [p' log'] eqn:Hr'.
  apply poolRun_created in Hr, Hr'. simpl in Hr.
  unfold GetConnectionsCreated. rewrite socketsOpened_app.
  repeat split; try lia.
  - intros c healthy. apply release_created.
  - intros live dial. destruct (acquire live dial p) as [q a] eqn:Ha.
    by apply acquire_created in Ha.
Qed.

(** The counts TestProxySanity asserts after each of its four passes. *)
Example TestProxySanity_counts :
  let p0 := newPool in
  let p1 := (poolRun p0 passCold).1 in
  let p2 := (poolRun p1 passWarm).1 in
  let p3 := (poolRun p2 passFailing).1 in
  let p4 := (poolRun p3 passRecovered).1 in
  map GetConnectionsCreated [p0; p1; p2; p3; p4] = [0; 5; 5; 10; 15]%nat.
Proof. by vm_compute. Qed.

End PoolClaims.

(** ** The request cycle *)

Section SessionClaims.

(** What an acquisition hands out was opened by this pool and is no longer
    idle. *)
Lemma acquire_conn live dial p p' a c :
  poolWf p -> acquire live dial p = (p', a) -> connOf a = Some c ->
  (c < connectionsCreated p')%nat /\ c ∉ idle p'.
Proof.
  intros Hwf Ha Hc.
  pose proof (acquire_created _ _ _ _ _ Ha) as Hn.
  pose proof (acquire_wf _ _ _ _ _ Hwf Ha) as Hwf'.
  destruct (acquire_idle _ _ _ _ _ Ha) as [Hsub Hkind].
  destruct a as [c' | c' |]; simplify_eq/=.
  - destruct Hkind as [Hin Hout]. split; [| done]. specialize (Hwf c Hin). lia.
  - split; [lia |]. intros Hin%Hsub%Hwf. lia.
Qed.


Lemma release_idle c healthy p c' :
  c' ∈ idle (release c healthy p) ->
  c' ∈ idle p \/ (healthy = true /\ c' = c).
Proof. destruct healthy; simpl; set_solver. Qed.

Lemma newPool_wf : poolWf newPool.
Proof. intros c Hc. simpl in Hc. set_solver. Qed.

Lemma release_wf c healthy p :
  poolWf p -> (c < connectionsCreated p)%nat -> poolWf (release c healthy p).
Proof.
  intros Hwf Hc c' [Hin | [_ ->]]%release_idle; rewrite release_created;
    [by apply Hwf | done].
Qed.

(** Request cycles keep the pool well formed: every pool a session meets
    after any number of cycles from a new pool is. *)
Lemma requestCycle_wf env p :
  poolWf p -> poolWf (requestCycle env p).1.1.
Proof.
  intros Hwf. unfold requestCycle.
  destruct (acquire (live1 env) (dial1 env) p) as [p1 a1] eqn:Ha1.
  pose proof (acquire_wf _ _ _ _ _ Hwf Ha1) as Hwf1.
  destruct (connOf a1) as [c1 |] eqn:Hc1;
    [| by destruct (respond env _)].
  destruct (acquire_conn _ _ _ _ _ _ Hwf Ha1 Hc1) as [Hlt1 _].
  destruct (forward1 env).
  { destruct (respond env _). by apply release_wf. }
  pose proof (release_wf c1 false p1 Hwf1 Hlt1) as Hwf1'.
  destruct (acquire (live2 env) (dial2 env) (release c1 false p1))
    as [p2 a2] eqn:Ha2.
  pose proof (acquire_wf _ _ _ _ _ Hwf1' Ha2) as Hwf2.
  destruct (connOf a2) as [c2 |] eqn:Hc2;
    [| by destruct (respond env _)].
  destruct (acquire_conn _ _ _ _ _ _ Hwf1' Ha2 Hc2) as [Hlt2 _].
  destruct (forward2 env); destruct (respond env _); by apply release_wf.
Qed.



Example requestCycle_failingBackend_events :
  requestCycle failingBackend newPool
  = ({| idle := ∅; connectionsCreated := 2 |},
     [EvAcquire (Opened 0); EvForward 0; EvRelease 0 false;
      EvAcquire (Opened 1); EvForward 1; EvRelease 1 false;
      EvErrorReply BackendUnavailable],
     SessionOpen).
Proof. by vm_compute. Qed.

End SessionClaims.

(** * Further properties of the code *)

(** ** Serialize *)

Section SerializeMore.

(** A store that returns was in range and keeps the length. *)
Lemma store_returns buf i b buf' :
  store buf i b = Return buf' -> length buf' = length buf /\ 0 <= i < len buf.
Proof.
  unfold store.
  destruct (Z.ltb_spec i 0); cbn [orb]; [done |].
  destruct (Z.leb_spec (len buf) i); [done |].
  intros [= <-]. rewrite length_insert. lia.
Qed.

Lemma writeInt32_returns v buf loc buf' :
  writeInt32 v buf loc = Return buf' ->
  length buf' = length buf /\ 0 <= loc /\ loc + 3 < len buf.
Proof.
  unfold writeInt32.
  destruct (store buf loc _) as [b1 | |] eqn:H1; cbn [bind]; [| done | done].
  destruct (store b1 _ _) as [b2 | |] eqn:H2; cbn [bind]; [| done | done].
  destruct (store b2 _ _) as [b3 | |] eqn:H3; cbn [bind]; [| done | done].
  intros H4.
  apply store_returns in H1 as [L1 R1]. apply store_returns in H2 as [L2 R2].
  apply store_returns in H3 as [L3 R3]. apply store_returns in H4 as [L4 R4].
  unfold len in *. lia.
Qed.

Lemma WriteInto_returns h buf buf' :
  MsgHeader.WriteInto h buf = Return buf' ->
  length buf' = length buf /\ 16 <= len buf.
Proof.
  unfold MsgHeader.WriteInto.
  destruct (writeInt32 _ buf 0) as [b1 | |] eqn:H1; cbn [bind]; [| done | done].
  destruct (writeInt32 _ b1 4) as [b2 | |] eqn:H2; cbn [bind]; [| done | done].
  destruct (writeInt32 _ b2 8) as [b3 | |] eqn:H3; cbn [bind]; [| done | done].
  intros H4.
  apply writeInt32_returns in H1 as [L1 R1].
  apply writeInt32_returns in H2 as [L2 R2].
  apply writeInt32_returns in H3 as [L3 R3].
  apply writeInt32_returns in H4 as [L4 R4].
  unfold len in *. lia.
Qed.

Lemma copy_at_returns buf loc src buf' :
  copy_at buf loc src = Return buf' -> length buf' = length buf.
Proof.
  unfold copy_at, slice_from.
  destruct (Z.ltb_spec loc 0); cbn [orb]; [done |].
  destruct (Z.ltb_spec (len buf) loc); [done |].
  cbn [bind]. intros [= <-].
  unfold len in *. rewrite !length_app, !length_take, !length_drop. lia.
Qed.

Lemma copyDocs_returns docs : forall loc buf loc' buf',
  copyDocs docs loc buf = Return (loc', buf') -> length buf' = length buf.
Proof.
  induction docs as [| d docs IH]; intros loc buf loc' buf'; cbn [copyDocs].
  - by intros [= _ <-].
  - unfold Copy.
    destruct (copy_at buf loc (BSON d)) as [b1 | |] eqn:H1;
      cbn [bind]; [| done | done].
    intros ->%IH. by apply copy_at_returns in H1.
Qed.

(** [Serialize] reads the documents and the three other header fields, not
    the header size. *)
Lemma Serialize_setHeaderSize m s :
  Serialize (setHeaderSize m s) = Serialize m.
Proof. reflexivity. Qed.

(** X1: a second [Serialize] changes nothing.  When [Serialize] returns the
    message [m'] and the buffer [buf], calling it again on [m'] returns
    [m'] and [buf] again, and so does calling it on the first message with
    any other value [s] in the header's Size. *)
Theorem Serialize_twice (m m' : CommandReplyMessage) (buf : list byte) (s : Z) :
  Serialize m = Return (m', buf) ->
  Serialize m' = Return (m', buf)
  /\ Serialize (setHeaderSize m s) = Return (m', buf).
Proof.
  intros HS. split.
  - rewrite (Serialize_header _ _ _ HS) at 1.
    by rewrite Serialize_setHeaderSize.
  - by rewrite Serialize_setHeaderSize.
Qed.

(** X1, witness: the sample reply, serialized a second time. *)
Lemma Serialize_twice_sample :
  Serialize (setHeaderSize sampleReply 52)
    = Return (setHeaderSize sampleReply 52,
              headerBytes (MsgHeader.with_Size sampleHeader 52)
                ++ spans (docsOf sampleReply)).
Proof.
  apply (Serialize_twice sampleReply _ _ 0). by vm_compute.
Defined.

(** X2: whenever [Serialize] returns, whatever sizes the documents record,
    the message it leaves behind is the one it was given with the header's
    Size set to the int32 truncation of the length of the returned buffer,
    and that buffer holds at least the 16 header bytes. *)
Theorem Serialize_size_is_buffer_length
    (m m' : CommandReplyMessage) (buf : list byte) :
  Serialize m = Return (m', buf) ->
  m' = setHeaderSize m (int32 (len buf))
  /\ MsgHeader.Size (header m') = int32 (len buf)
  /\ 16 <= len buf
  /\ docsOf m' = docsOf m.
Proof.
  intros HS. pose proof (Serialize_header _ _ _ HS) as Hm'.
  revert HS. rewrite Serialize_unfold. cbv zeta.
  set (size := sumSizes 16 (docsOf m)) in *.
  unfold make. destruct (Z.ltb_spec size 0); cbn [bind]; [done |].
  destruct (MsgHeader.WriteInto _ _) as [b1 | |] eqn:HW;
    cbn [bind]; [| done | done].
  destruct (copyDocs _ _ b1) as [[loc b2] | |] eqn:HC;
    cbn [bind]; [| done | done].
  intros [= _ <-].
  apply WriteInto_returns in HW as [L1 H16].
  apply copyDocs_returns in HC.
  assert (HL : len b2 = size).
  { unfold len in *. rewrite HC, L1, length_replicate. lia. }
  rewrite HL. subst m'. split; [done |]. split; [done |]. split; [| done].
  unfold len in *. rewrite length_replicate in H16. lia.
Qed.

(** X2, witness: a reply whose documents record seven bytes each for spans
    of five; the buffer is 30 bytes long and the header says 30. *)
Lemma Serialize_size_is_buffer_length_sample :
  exists buf,
    Serialize paddedReply = Return (setHeaderSize paddedReply 30, buf)
    /\ MsgHeader.Size (header (setHeaderSize paddedReply 30)) = int32 (len buf)
    /\ 16 <= len buf.
Proof.
  assert (HS : Serialize paddedReply
               = Return (setHeaderSize paddedReply 30,
                         headerBytes (MsgHeader.with_Size sampleHeader 30)
                           ++ [x05; x00; x00; x00; x00; x00; x00;
                               x05; x00; x00; x00; x00; x00; x00]))
    by (by vm_compute).
  eexists. split; [exact HS |].
  destruct (Serialize_size_is_buffer_length _ _ _ HS) as (_ & Hsz & H16 & _).
  split; [exact Hsz | exact H16].
Defined.

(** The recorded sizes of framed documents are the lengths of their
    spans. *)
Lemma framed_sized docs : Forall framed docs -> Forall sized docs.
Proof. intros Hf. eapply Forall_impl; [exact Hf |]. by intros d [Hs _]. Qed.

Lemma messageSize_spans m :
  Forall sized (docsOf m) -> messageSize m = 16 + len (spans (docsOf m)).
Proof.
  intros Hs. rewrite <- docSizes_spans by done.
  unfold messageSize, docsOf, docSizes. cbn [foldr]. lia.
Qed.

Lemma drop_headerBytes h b : drop 16 (headerBytes h ++ b) = b.
Proof.
  exact (drop_app_length' (headerBytes h) b 16 (headerBytes_length h)).
Qed.

(** Framed spans laid end to end can be told apart again. *)
Lemma spans_framed_inj docs1 docs2 :
  Forall framed docs1 -> Forall framed docs2 ->
  (2 <= length docs1)%nat -> (2 <= length docs2)%nat ->
  spans docs1 = spans docs2 -> docs1 = docs2.
Proof.
  intros Hf1 Hf2 L1 L2 Heq.
  destruct docs1 as [| cr1 [| md1 outs1]]; [simpl in L1; lia.. |].
  destruct docs2 as [| cr2 [| md2 outs2]]; [simpl in L2; lia.. |].
  inversion Hf1 as [| ? ? Hc1 Hr1]; inversion Hr1 as [| ? ? Hm1 Ho1]; subst.
  inversion Hf2 as [| ? ? Hc2 Hr2]; inversion Hr2 as [| ? ? Hm2 Ho2]; subst.
  pose proof (parseCommandReplyMessage_spans sampleHeader _ _ _ Hc1 Hm1 Ho1)
    as P1.
  pose proof (parseCommandReplyMessage_spans sampleHeader _ _ _ Hc2 Hm2 Ho2)
    as P2.
  rewrite Heq, P2 in P1. by injection P1 as -> -> ->.
Qed.

(** X3: [Serialize] loses nothing of framed documents.  Two messages with
    framed documents and totals a Go int holds that serialize to the same
    buffer hold the same CommandReply, Metadata and OutputDocs. *)
Theorem Serialize_injective
    (m1 m2 m1' m2' : CommandReplyMessage) (buf : list byte) :
  Forall framed (docsOf m1) -> Forall framed (docsOf m2) ->
  messageSize m1 <= MaxInt -> messageSize m2 <= MaxInt ->
  Serialize m1 = Return (m1', buf) -> Serialize m2 = Return (m2', buf) ->
  CommandReply m1 = CommandReply m2 /\ Metadata m1 = Metadata m2
  /\ OutputDocs m1 = OutputDocs m2.
Proof.
  intros Hf1 Hf2 Hmax1 Hmax2 HS1 HS2.
  pose proof (Serialize_spans m1 (framed_sized _ Hf1) Hmax1) as E1.
  pose proof (Serialize_spans m2 (framed_sized _ Hf2) Hmax2) as E2.
  cbv zeta in E1, E2. rewrite HS1 in E1. rewrite HS2 in E2.
  set (hdr1 := headerBytes _) in E1. set (hdr2 := headerBytes _) in E2.
  assert (Heq : hdr1 ++ spans (docsOf m1) = hdr2 ++ spans (docsOf m2))
    by congruence.
  apply app_inj_1 in Heq as [_ Heq];
    [| unfold hdr1, hdr2; by rewrite !headerBytes_length].
  apply spans_framed_inj in Heq; [| done | done | simpl; lia | simpl; lia].
  by injection Heq as -> -> ->.
Qed.

(** X3, witness: a message that serializes to the bytes of the sample reply
    holds the documents of the sample reply, whatever its header's Size. *)
Lemma Serialize_injective_sample :
  CommandReply (setHeaderSize sampleReply 7) = CommandReply sampleReply
  /\ Metadata (setHeaderSize sampleReply 7) = Metadata sampleReply
  /\ OutputDocs (setHeaderSize sampleReply 7) = OutputDocs sampleReply.
Proof.
  assert (Hf : Forall framed (docsOf sampleReply)) by repeat constructor.
  assert (Hmax : messageSize sampleReply <= MaxInt) by (by vm_compute).
  apply (Serialize_injective (setHeaderSize sampleReply 7) sampleReply
           (setHeaderSize sampleReply 52) (setHeaderSize sampleReply 52)
           (headerBytes (MsgHeader.with_Size sampleHeader 52)
              ++ spans (docsOf sampleReply)) Hf Hf Hmax Hmax);
    by vm_compute.
Defined.

(** X4: appending an output document appends its span.  For a message whose
    documents record the lengths of their spans, and a further such
    document [d], within the range of a Go int: [Serialize] of the message
    with [d] appended to OutputDocs returns the payload of [Serialize] of
    the message followed by the span of [d], in a buffer longer by the size
    of [d]. *)
Theorem Serialize_appendOutputDoc (m : CommandReplyMessage) (d : SimpleBSON) :
  Forall sized (docsOf m) -> sized d -> messageSize m + Size d <= MaxInt ->
  exists m1 buf1 m2 buf2,
    Serialize m = Return (m1, buf1)
    /\ Serialize (appendOutputDoc m d) = Return (m2, buf2)
    /\ drop 16 buf2 = drop 16 buf1 ++ BSON d
    /\ len buf2 = len buf1 + Size d
    /\ OutputDocs m2 = OutputDocs m1 ++ [d].
Proof.
  intros Hs Hd Hmax.
  assert (Hs' : Forall sized (docsOf (appendOutputDoc m d))).
  { unfold docsOf in *. cbn [CommandReply Metadata OutputDocs appendOutputDoc].
    rewrite !app_comm_cons. apply Forall_app. split; [done | by constructor]. }
  assert (Hsp : spans (docsOf (appendOutputDoc m d))
                = spans (docsOf m) ++ BSON d).
  { unfold spans, docsOf.
    cbn [CommandReply Metadata OutputDocs appendOutputDoc].
    rewrite !app_comm_cons, map_app, concat_app. simpl.
    by rewrite app_nil_r. }
  assert (Hd0 : 0 <= Size d) by (rewrite Hd; apply len_nonneg).
  assert (Hsize : messageSize (appendOutputDoc m d) = messageSize m + Size d).
  { rewrite !messageSize_spans by done. rewrite Hsp, len_app, <- Hd. lia. }
  do 4 eexists.
  split; [apply Serialize_spans; [done | lia] |].
  split; [apply Serialize_spans; [done | lia] |].
  rewrite !drop_headerBytes.
  split; [done |]. split; [| done].
  rewrite !len_app, Hsp, len_app, <- Hd. unfold len.
  rewrite !headerBytes_length. lia.
Qed.

(** X4, witness: the sample reply with one more empty document. *)
Lemma Serialize_appendOutputDoc_sample :
  exists m1 buf1 m2 buf2,
    Serialize sampleReply = Return (m1, buf1)
    /\ Serialize (appendOutputDoc sampleReply doc5) = Return (m2, buf2)
    /\ drop 16 buf2 = drop 16 buf1 ++ BSON doc5
    /\ len buf2 = len buf1 + Size doc5
    /\ OutputDocs m2 = OutputDocs m1 ++ [doc5].
Proof.
  apply (Serialize_appendOutputDoc sampleReply doc5).
  - repeat constructor.
  - reflexivity.
  - by vm_compute.
Defined.

(** X5: serializing what was parsed gives the bytes back.  When
    [parseCommandReplyMessage] returns a message without error from a
    payload that, with its 16 header bytes, stays within the range of a Go
    int, [Serialize] of that message returns the header, with the size
    16 + len(payload), followed by the very payload that was parsed. *)
Theorem parse_Serialize_roundtrip
    (h : MessageHeader) (payload : list byte) (rm : CommandReplyMessage) :
  parseCommandReplyMessage h payload = Return (rm, None) ->
  16 + len payload <= MaxInt ->
  let h' := MsgHeader.with_Size h (int32 (16 + len payload)) in
  Serialize rm = Return (withHeader rm h', headerBytes h' ++ payload)
  /\ slice_from (headerBytes h' ++ payload) 16 = Return payload.
Proof.
  intros (Hh & Hf & Hb)%parseCommandReplyMessage_inv Hmax h'.
  pose proof (declared_sized _ Hf) as Hs.
  pose proof (messageSize_spans _ Hs) as Hsz. rewrite <- Hb in Hsz.
  split.
  - rewrite Serialize_spans by (done || lia).
    rewrite Hsz, <- Hb. unfold setHeaderSize, withHeader.
    cbn [header]. by rewrite Hh.
  - rewrite slice_from_ok.
    + by rewrite drop_headerBytes.
    + rewrite len_app. unfold len. rewrite headerBytes_length. lia.
Qed.

(** X5, witness: the payload of the sample reply. *)
Lemma parse_Serialize_roundtrip_sample :
  Serialize sampleReply
    = Return (setHeaderSize sampleReply 52,
              headerBytes (MsgHeader.with_Size sampleHeader 52)
                ++ spans (docsOf sampleReply)).
Proof.
  assert (Hp : parseCommandReplyMessage sampleHeader (spans (docsOf sampleReply))
               = Return (sampleReply, None)) by (by vm_compute).
  assert (Hmax : 16 + len (spans (docsOf sampleReply)) <= MaxInt)
    by (by vm_compute).
  exact (proj1 (parse_Serialize_roundtrip _ _ _ Hp Hmax)).
Defined.

(** X6: the layout of the serialized message.  For a message whose
    documents record the lengths of their spans, within the range of a Go
    int, and whose header fields are int32 values: [Serialize] returns a
    buffer whose bytes from 16 on are the span of the CommandReply, the span
    of the Metadata and the spans of the OutputDocs in their order, with
    nothing between or after them, and whose bytes at 4, 8 and 12 read back
    as the RequestID, ResponseTo and OpCode of the header. *)
Theorem Serialize_layout (m : CommandReplyMessage) :
  Forall sized (docsOf m) -> messageSize m <= MaxInt ->
  MinInt32 <= MsgHeader.RequestID (header m) <= MaxInt32 ->
  MinInt32 <= MsgHeader.ResponseTo (header m) <= MaxInt32 ->
  MinInt32 <= MsgHeader.OpCode (header m) <= MaxInt32 ->
  exists m' buf,
    Serialize m = Return (m', buf)
    /\ slice_from buf 16
       = Return (BSON (CommandReply m) ++ BSON (Metadata m)
                 ++ spans (OutputDocs m))
    /\ readInt32 (drop 4 buf) = Some (MsgHeader.RequestID (header m))
    /\ readInt32 (drop 8 buf) = Some (MsgHeader.ResponseTo (header m))
    /\ readInt32 (drop 12 buf) = Some (MsgHeader.OpCode (header m)).
Proof.
  intros Hs Hmax Hrq Hrt Hop.
  eexists _, _. split; [by apply Serialize_spans |].
  split.
  - rewrite slice_from_ok.
    + by rewrite drop_headerBytes.
    + rewrite len_app. unfold len. rewrite headerBytes_length. lia.
  - unfold headerBytes, setHeaderSize.
    cbn [header MsgHeader.with_Size MsgHeader.Size MsgHeader.RequestID
         MsgHeader.ResponseTo MsgHeader.OpCode].
    repeat split.
    + exact (readInt32_int32_bytes _ _ Hrq).
    + exact (readInt32_int32_bytes _ _ Hrt).
    + exact (readInt32_int32_bytes _ _ Hop).
Qed.

(** X6, witness: the sample reply. *)
Lemma Serialize_layout_sample :
  exists m' buf,
    Serialize sampleReply = Return (m', buf)
    /\ slice_from buf 16
       = Return (BSON docOk ++ BSON doc5 ++ spans [docOk; doc5])
    /\ readInt32 (drop 4 buf) = Some 7
    /\ readInt32 (drop 8 buf) = Some 3
    /\ readInt32 (drop 12 buf) = Some 2011.
Proof.
  apply (Serialize_layout sampleReply).
  - repeat constructor.
  - by vm_compute.
  - by vm_compute.
  - by vm_compute.
  - by vm_compute.
Defined.

End SerializeMore.

(** ** parseCommandReplyMessage *)

Section ParseMore.

(** The loop never looks at the header of the message it fills. *)
Lemma parseOutputDocs_withHeader h' fuel : forall rm buf rm' e,
  parseOutputDocs fuel rm buf = Return (rm', e) ->
  parseOutputDocs fuel (withHeader rm h') buf = Return (withHeader rm' h', e).
Proof.
  induction fuel as [| fuel IH]; intros rm buf rm' e; cbn [parseOutputDocs];
    destruct (0 <? len buf); try done; try (by intros [= <- <-]).
  destruct (parseSimpleBSON buf) as [doc [e' |]]; [by intros [= <- <-] |].
  destruct (slice_from buf (Size doc)) as [buf1 | |];
    cbn [bind]; [| done | done].
  intros Hp%IH. exact Hp.
Qed.

(** X7: the header is carried, never checked.  Whatever
    [parseCommandReplyMessage] returns under a header [h], message and
    error, it returns under any other header [h'] with [h'] in the place of
    [h]: no field of the header, its Size included, is compared with the
    payload. *)
Theorem parseCommandReplyMessage_header_unchecked
    (h h' : MessageHeader) (buf : list byte)
    (rm : CommandReplyMessage) (e : option error) :
  parseCommandReplyMessage h buf = Return (rm, e) ->
  header rm = h
  /\ parseCommandReplyMessage h' buf = Return (withHeader rm h', e).
Proof.
  unfold parseCommandReplyMessage.
  destruct (parseSimpleBSON buf) as [cr [e1 |]]; [by intros [= <- <-] |].
  cbn [CommandReply Metadata OutputDocs].
  destruct (slice_from buf (Size cr)) as [buf1 | |];
    cbn [bind]; [| done | done].
  destruct (parseSimpleBSON buf1) as [md [e2 |]]; [by intros [= <- <-] |].
  cbn [Metadata].
  destruct (slice_from buf1 (Size md)) as [buf2 | |];
    cbn [bind]; [| done | done].
  intros Hp. split.
  - destruct e as [e |].
    + pose proof (parseOutputDocs_withHeader h _ _ _ _ _ Hp) as Hp'.
      revert Hp Hp'. unfold withHeader at 1. cbn [header CommandReply Metadata OutputDocs].
      intros -> [= Heq]. by rewrite Heq.
    + apply parseOutputDocs_inv in Hp as (outs & -> & _). done.
  - apply (parseOutputDocs_withHeader h') in Hp. exact Hp.
Qed.

(** X7, witness: the payload of the sample reply under another header. *)
Lemma parseCommandReplyMessage_header_unchecked_sample :
  parseCommandReplyMessage (MsgHeader.with_Size sampleHeader 4)
      (spans (docsOf sampleReply))
    = Return (setHeaderSize sampleReply 4, None).
Proof.
  assert (Hp : parseCommandReplyMessage sampleHeader
                 (spans (docsOf sampleReply)) = Return (sampleReply, None))
    by (by vm_compute).
  exact (proj2 (parseCommandReplyMessage_header_unchecked sampleHeader
                  (MsgHeader.with_Size sampleHeader 4) _ _ _ Hp)).
Defined.




(** An accepted document is read the same with more bytes behind it, and
    so is the cursor advance past it. *)
Lemma parseSimpleBSON_app b d rest :
  parseSimpleBSON b = (d, None) -> parseSimpleBSON (b ++ rest) = (d, None).
Proof.
  intros (Hr & Hsz & Hb)%parseSimpleBSON_ok.
  pose proof (len_nonneg rest).
  rewrite (parseSimpleBSON_accepts _ (Size d))
    by (by apply readInt32_app || (rewrite len_app; lia)).
  rewrite take_app_le by (unfold len in *; lia).
  destruct d as [sz bs]. simpl in *. by rewrite Hb.
Qed.

Lemma slice_from_app {A} (s r rest : list A) (lo : Z) :
  slice_from s lo = Return r -> slice_from (s ++ rest) lo = Return (r ++ rest).
Proof.
  intros [Hrange ->]%slice_from_returns. pose proof (len_nonneg rest).
  rewrite slice_from_ok by (rewrite len_app; lia).
  by rewrite drop_app_le by (unfold len in *; lia).
Qed.

(** A loop that returned without error collects the same documents, and
    then the framed ones put behind the buffer. *)
Lemma parseOutputDocs_app more :
  Forall framed more -> forall fuel rm buf rm',
  parseOutputDocs fuel rm buf = Return (rm', None) ->
  forall fuel', (length (buf ++ spans more) <= fuel')%nat ->
  parseOutputDocs fuel' rm (buf ++ spans more)
    = Return (appendOutputDocs rm' more, None).
Proof.
  intros Hmore fuel.
  assert (Hend : forall rm buf fuel',
             ~ 0 < len buf -> (length (buf ++ spans more) <= fuel')%nat ->
             parseOutputDocs fuel' rm (buf ++ spans more)
               = Return (appendOutputDocs rm more, None)).
  { intros rm buf fuel' Hlen Hfuel'.
    destruct buf; [| unfold len in *; simpl in *; lia].
    by apply parseOutputDocs_spans. }
  induction fuel as [| fuel IH]; intros rm buf rm'; cbn [parseOutputDocs];
    (destruct (Z.ltb_spec 0 (len buf)) as [Hlen |];
     [| intros [= <-] fuel' Hfuel'; apply Hend; [lia | done]]);
    [done |].
  destruct (parseSimpleBSON buf) as [doc [e |]] eqn:Hp; [done |].
  destruct (slice_from buf (Size doc)) as [buf1 | |] eqn:Hsl;
    cbn [bind]; [| done | done].
  intros Hloop fuel' Hfuel'.
  destruct (slice_from_returns _ _ _ Hsl) as [Hrange Hbuf1].
  destruct (parseSimpleBSON_ok _ _ Hp) as (Hr & _ & _).
  assert (Hpos : 0 < Size doc).
  { destruct (Z.lt_ge_cases 0 (Size doc)) as [| Hle]; [done |].
    assert (Hzero : Size doc = 0) by lia.
    rewrite Hzero in Hbuf1. change (Z.to_nat 0) with 0%nat in Hbuf1.
    rewrite drop_0 in Hbuf1. subst buf1.
    destruct (parseOutputDocs_nonPositive buf
                (nonPositive_here _ _ Hr Hle) _ _ _ Hloop). }
  rewrite length_app in Hfuel'.
  destruct fuel' as [| fuel']; [unfold len in *; lia |].
  cbn [parseOutputDocs].
  destruct (Z.ltb_spec 0 (len (buf ++ spans more)));
    [| rewrite len_app in *; pose proof (len_nonneg (spans more)); lia].
  rewrite (parseSimpleBSON_app _ _ _ Hp), (slice_from_app _ _ _ _ Hsl).
  cbn [bind]. apply (IH _ _ _ Hloop).
  subst buf1. rewrite length_app, length_drop. unfold len in *. lia.
Qed.

(** X9: a reply that parses still parses with more documents behind it.
    When [parseCommandReplyMessage] returns a message without error, the
    same payload followed by the spans of framed documents parses, without
    error, to that message with those documents appended to OutputDocs. *)
Theorem parseCommandReplyMessage_app
    (h : MessageHeader) (buf : list byte) (rm : CommandReplyMessage)
    (more : list SimpleBSON) :
  parseCommandReplyMessage h buf = Return (rm, None) ->
  Forall framed more ->
  parseCommandReplyMessage h (buf ++ spans more)
    = Return (appendOutputDocs rm more, None).
Proof.
  unfold parseCommandReplyMessage. intros Hparse Hmore. revert Hparse.
  destruct (parseSimpleBSON buf) as [cr [e1 |]] eqn:Hp1; [done |].
  rewrite (parseSimpleBSON_app _ _ _ Hp1). cbn [CommandReply].
  destruct (slice_from buf (Size cr)) as [buf1 | |] eqn:Hsl1;
    cbn [bind]; [| done | done].
  rewrite (slice_from_app _ _ _ _ Hsl1). cbn [bind].
  destruct (parseSimpleBSON buf1) as [md [e2 |]] eqn:Hp2; [done |].
  rewrite (parseSimpleBSON_app _ _ _ Hp2). cbn [Metadata].
  destruct (slice_from buf1 (Size md)) as [buf2 | |] eqn:Hsl2;
    cbn [bind]; [| done | done].
  rewrite (slice_from_app _ _ _ _ Hsl2). cbn [bind].
  intros Hloop. by apply (parseOutputDocs_app more Hmore _ _ _ _ Hloop).
Qed.

(** X9, witness: the sample payload with one more empty document. *)
Lemma parseCommandReplyMessage_app_sample :
  parseCommandReplyMessage sampleHeader
      (spans (docsOf sampleReply) ++ spans [doc5])
    = Return (appendOutputDocs sampleReply [doc5], None).
Proof.
  assert (Hp : parseCommandReplyMessage sampleHeader
                 (spans (docsOf sampleReply)) = Return (sampleReply, None))
    by (by vm_compute).
  assert (Hf : Forall framed [doc5]) by repeat constructor.
  exact (parseCommandReplyMessage_app _ _ _ _ Hp Hf).
Defined.



End ParseMore.

(** ** MongoError *)

Section MongoErrorMore.

(** X11: the error document reads as a map.  The keys [ToBSON] writes are
    pairwise distinct; looking a key up in the document gives 0 for "ok",
    what GetCode and GetCodeName return for "code" and "codeName", the
    message of the cause for "errmsg" when there is a cause and nothing
    when there is none, and nothing for any other key. *)
Theorem ToBSON_lookup (me : MongoError) :
  NoDup (bson.keys (ToBSON me))
  /\ lookupKey "ok" (ToBSON me) = Some (bson.Int 0)
  /\ lookupKey "errmsg" (ToBSON me) = bson.Str <$> err me
  /\ lookupKey "code" (ToBSON me) = Some (bson.Int (GetCode me))
  /\ lookupKey "codeName" (ToBSON me) = Some (bson.Str (GetCodeName me))
  /\ (forall key, key ∉ errorKeys -> lookupKey key (ToBSON me) = None).
Proof.
  destruct me as [[msg |] c name info]; unfold ToBSON, GetCode, GetCodeName;
    cbn [err code codeName app bson.keys map bson.Key lookupKey];
    (split;
     [repeat (apply NoDup_cons; split; [intros Hin; elem_of_literals Hin |]);
      apply NoDup_nil_2 |]);
    repeat (split; [reflexivity |]);
    intros key Hkey; cbn [bson.Val];
    repeat match goal with
           | |- context [String.eqb ?k key] =>
               destruct (String.eqb_spec k key) as [<- | _];
               [exfalso; apply Hkey; unfold errorKeys;
                repeat first [apply list_elem_of_here
                             | apply list_elem_of_further] |]
           end;
    done.
Qed.

(** X11, witness: the sample error, looked up by key. *)
Lemma ToBSON_lookup_sample :
  lookupKey "errmsg" (ToBSON sampleError)
    = Some (bson.Str "connection closed")
  /\ lookupKey "errInfo" (ToBSON sampleError) = None.
Proof.
  destruct (ToBSON_lookup sampleError) as (_ & _ & Hmsg & _ & _ & Hother).
  split; [exact Hmsg |].
  apply Hother. intros Hin. unfold errorKeys in Hin. elem_of_literals Hin.
Defined.

(** X12: the error document tells code, code name and cause, and nothing
    else.  Two errors have the same document exactly when they agree on
    the cause's message (or both have no cause), on the code and on the
    code name. *)
Theorem ToBSON_injective (me1 me2 : MongoError) :
  ToBSON me1 = ToBSON me2
  <-> err me1 = err me2 /\ GetCode me1 = GetCode me2
      /\ GetCodeName me1 = GetCodeName me2.
Proof.
  destruct me1 as [[msg1 |] c1 name1 info1];
    destruct me2 as [[msg2 |] c2 name2 info2];
    unfold ToBSON, GetCode, GetCodeName; cbn [err code codeName app];
    (split; [intros [=]; by subst | intros ([=] & ? & ?); by subst]).
Qed.

(** The decimal digits of an int hold no space and tell the int. *)
Lemma noSpace_string_of_uint d : noSpace (NilEmpty.string_of_uint d) = true.
Proof. induction d; simpl; done. Qed.

Lemma noSpace_fmtInt z : noSpace (fmtInt z) = true.
Proof.
  unfold fmtInt.
  destruct z as [| p | p]; cbn [Z.to_int NilZero.string_of_int]; [done | |];
    unfold NilZero.string_of_uint;
    destruct (Pos.to_uint p) eqn:Hp; try done;
    rewrite <- Hp || idtac;
    cbn [noSpace Ascii.eqb Bool.eqb negb andb];
    apply (noSpace_string_of_uint (_ _)) || apply noSpace_string_of_uint.
Qed.

Lemma fmtInt_inj a b : fmtInt a = fmtInt b -> a = b.
Proof.
  unfold fmtInt. intros Heq. apply DecimalZ.to_int_inj.
  assert (Hnn : forall z, Z.to_int z <> Decimal.Pos Decimal.Nil
                          /\ Z.to_int z <> Decimal.Neg Decimal.Nil).
  { intros [| p | p]; split; try done; intros [= Hp];
      by apply DecimalPos.Unsigned.to_uint_nonnil in Hp. }
  destruct (Hnn a) as [Ha1 Ha2], (Hnn b) as [Hb1 Hb2].
  pose proof (NilZero.isi _ Ha1 Ha2) as Ia.
  pose proof (NilZero.isi _ Hb1 Hb2) as Ib.
  rewrite Heq, Ib in Ia. by injection Ia.
Qed.

(** Two space-free words, each followed by a space, start equal texts only
    when they are the same word. *)
Lemma split_at_space s1 : forall s2 t1 t2,
  noSpace s1 = true -> noSpace s2 = true ->
  s1 +:+ String " " t1 = s2 +:+ String " " t2 -> s1 = s2 /\ t1 = t2.
Proof.
  induction s1 as [| c1 s1 IH]; intros [| c2 s2] t1 t2; cbn [noSpace String.append].
  - by intros _ _ [= ->].
  - intros _ Hn [= <- _]. done.
  - intros Hn _ [= -> _]. done.
  - intros [_ Hn1]%andb_prop [_ Hn2]%andb_prop [= -> Heq].
    by destruct (IH _ _ _ Hn1 Hn2 Heq) as [-> ->].
Qed.

(** X13: the text of an error tells its code, and with the code name its
    cause.  Two errors for which [Error] returns the same text have the
    same code; if they also have the same code name, they have the same
    cause. *)
Theorem Error_determines_code (me1 me2 : MongoError) (s : string) :
  Error me1 = Return s -> Error me2 = Return s ->
  GetCode me1 = GetCode me2
  /\ (GetCodeName me1 = GetCodeName me2 -> err me1 = err me2).
Proof.
  unfold Error, GetCode, GetCodeName.
  destruct me1 as [[msg1 |] c1 name1 info1]; [| done].
  destruct me2 as [[msg2 |] c2 name2 info2]; [| done].
  cbn [err code codeName]. intros [= <-] [= Heq].
  apply split_at_space in Heq as [Hc%fmtInt_inj Heq];
    [| apply noSpace_fmtInt..].
  split; [done |]. intros <-.
  injection Heq as Heq. do 2 apply String.app_inj in Heq. by rewrite Heq.
Qed.

(** X13, witness: an error that prints as the sample error and is named as
    the sample error has its code and its cause. *)
Lemma Error_determines_code_sample :
  GetCode (NewMongoError (Some "connection closed") 6 "HostUnreachable") = 6
  /\ (GetCodeName (NewMongoError (Some "connection closed") 6 "HostUnreachable")
        = GetCodeName sampleError ->
      err (NewMongoError (Some "connection closed") 6 "HostUnreachable")
        = err sampleError).
Proof.
  apply (Error_determines_code
           (NewMongoError (Some "connection closed") 6 "HostUnreachable")
           sampleError
           "code=6 codeName=HostUnreachable errmsg = connection closed");
    reflexivity.
Defined.

Lemma string_app_assoc (s t u : string) : (s +:+ t) +:+ u = s +:+ t +:+ u.
Proof.
  induction s as [| c s IH]; [reflexivity |].
  change (String c ((s +:+ t) +:+ u) = String c (s +:+ t +:+ u)).
  by rewrite IH.
Qed.

Lemma string_length_app (s t : string) :
  String.length (s +:+ t) = (String.length s + String.length t)%nat.
Proof.
  induction s as [| c s IH]; [reflexivity |].
  change (S (String.length (s +:+ t))
          = S (String.length s + String.length t)).
  by rewrite IH.
Qed.

(** X14: the text of an error does not tell the code name from the cause.
    The separator between them can itself be part of either: the error
    named [name] with the cause [a errmsg = b] and the error named
    [name errmsg = a] with the cause [b] print the same text. *)
Theorem Error_ambiguous (c : Z) (name a b : string) :
  Error (NewMongoError (Some (a +:+ " errmsg = " +:+ b)) c name)
    = Error (NewMongoError (Some b) c (name +:+ " errmsg = " +:+ a))
  /\ GetCodeName (NewMongoError (Some (a +:+ " errmsg = " +:+ b)) c name)
     <> GetCodeName (NewMongoError (Some b) c (name +:+ " errmsg = " +:+ a)).
Proof.
  split.
  - unfold Error, NewMongoError. cbn [err code codeName].
    do 2 f_equal. f_equal.
    by rewrite string_app_assoc.
  - unfold GetCodeName, NewMongoError. cbn [codeName].
    intros Heq. apply (f_equal String.length) in Heq.
    rewrite string_length_app in Heq. simpl in Heq. lia.
Qed.

End MongoErrorMore.

(** ** The sample interceptor *)

Section InterceptorMore.

Context `{HelpersLaws}.

(** X15: the rewrite keeps the command.  Lower-casing "client" does not
    give "ismaster", so the element a handshake starts with is not the one
    removed: whenever [InterceptClientToMongo] returns on a handshake, what
    it returns is a query with the header, flags, namespace, counts and
    projection of the one it was given, whose document decodes with the
    same first key, and which is therefore a handshake again. *)
Theorem InterceptClientToMongo_keeps_command
    (m m' : Message) (ri : option ResponseInterceptor) (e : option error) :
  ToLower "client" <> "ismaster" ->
  isHandshake m = true ->
  InterceptClientToMongo m = Return (m', ri, e) ->
  isHandshake m' = true
  /\ exists mm qb query query',
       m = QueryMsg mm /\ m' = QueryMsg (setQuery mm qb)
       /\ ToBSOND (Query mm) = (query, None)
       /\ ToBSOND qb = (query', None)
       /\ head (bson.keys query') = head (bson.keys query)
       /\ bson.keys query' = bson.keys (dropFirstKey "client" query).
Proof.
  intros Hlow Hhs.
  destruct m as [mm | |]; [| done | done]. simpl in Hhs |- *.
  destruct (NamespaceIsCommand (Namespace mm)) eqn:Hns; [| done].
  simpl in Hhs |- *.
  destruct (ToBSOND (Query mm)) as [[| e0 query] [err0 |]] eqn:Hdec;
    try done.
  rewrite Hhs. cbn [negb]. rewrite remove_client_step. cbn [bind].
  assert (Hkeep : dropFirstKey "client" (e0 :: query)
                  = e0 :: dropFirstKey "client" query).
  { cbn [dropFirstKey].
    destruct (String.eqb_spec (bson.Key e0) "client") as [Hk | _]; [| done].
    rewrite Hk in Hhs. by apply String.eqb_eq in Hhs. }
  destruct (SimpleBSONConvert _) as [qb [err1 |]] eqn:Hconv; [done |].
  intros [= <- <- <-].
  destruct (convert_keys _ _ Hconv) as (d' & Hd' & Hkeys).
  rewrite Hkeep in Hkeys.
  destruct d' as [| e0' d']; [done |].
  cbn [bson.keys map] in Hkeys. injection Hkeys as Hk0 Hrest.
  split.
  - cbn [isHandshake setQuery Namespace Query]. rewrite Hns, Hd', Hk0. done.
  - exists mm, qb, (e0 :: query), (e0' :: d').
    repeat split; [done | done | simpl; by rewrite Hk0 |].
    rewrite Hkeep. unfold bson.keys. cbn [map]. by rewrite Hk0, Hrest.
Qed.

End InterceptorMore.

Section InterceptorMoreSamples.

Import Sample.

(** X15, witness: the sample handshake is a handshake after the rewrite. *)
Lemma InterceptClientToMongo_keeps_command_sample :
  isHandshake (QueryMsg (queryOf "admin.$cmd"
                           [bson.mkE "isMaster" (bson.Int 1);
                            bson.mkE "compression" (bson.Int 0)])) = true.
Proof.
  assert (Hlow : ToLower "client" <> "ismaster") by (by vm_compute).
  assert (Hhs : isHandshake (QueryMsg handshake) = true) by (by vm_compute).
  assert (Hret : InterceptClientToMongo (QueryMsg handshake)
                 = Return (QueryMsg (queryOf "admin.$cmd"
                                       [bson.mkE "isMaster" (bson.Int 1);
                                        bson.mkE "compression" (bson.Int 0)]),
                           None, None)) by (by vm_compute).
  exact (proj1 (@InterceptClientToMongo_keeps_command helpers sample_laws
                  _ _ _ _ Hlow Hhs Hret)).
Defined.

End InterceptorMoreSamples.
